(** * wx-filehelper-api: the background orchestration layer

    A shallow embedding of [src/background.py] (the dedup/backoff message
    listener, the error ring and the heartbeat monitor) and of the
    scheduled-task creation route of [src/routes/framework.py], together
    with the properties the specification states about them.

    Further parts embed the rest of [src/background.py] (file downloads,
    the session saver, the cleanup task, [start_all]), the stability route
    of [src/routes/framework.py], the webhook routes of
    [src/routes/bot.py], the download listing of [src/routes/files.py] and
    the uptime text of [src/plugins/webui.py], with properties read off the
    code.

    Conventions.
    - Python [str] values are byte strings ([string]); whitespace is the
      ASCII whitespace of [str.strip].
    - Python [float] durations (the poll interval) are exact rationals
      ([Q]); binary64 rounding is not modelled, equalities on intervals are
      [Qeq].
    - Every call into a collaborator (the bot, the command processor, the
      clock) takes its result from an explicit environment record, so the
      loops are functions of their inputs.  A call may return, raise an
      [Exception], or be cancelled ([asyncio.CancelledError], which is not
      an [Exception] and is not caught by [except Exception]).
    - One loop iteration is one atomic step of the system. *)

From Stdlib Require Import QArith Qminmax Qpower Lqa.
From Stdlib Require Ascii.
From stdpp Require Import base decidable option list sets mapset gmap strings pretty.

Set Default Proof Using "Type".
#[local] Set Warnings "-clear-no-such-hyp".

(** ** Python values and strings *)

Module Py.

(** A value found in a message dictionary under a key: the key may be
    absent, or hold [None], a string or an integer. *)
Inductive value : Type :=
  | Missing
  | PyNone
  | PyStr (s : string)
  | PyInt (z : Z).

(** [str(d.get(key, ""))]. *)
Definition str_get (v : value) : string :=
  match v with
  | Missing => ""
  | PyNone => "None"
  | PyStr s => s
  | PyInt z => pretty z
  end.

(** Whitespace removed by [str.strip()], on ASCII. *)
Definition is_space (c : Ascii.ascii) : bool :=
  let n := Ascii.nat_of_ascii c in
  (Nat.leb 9 n && Nat.leb n 13) || (Nat.leb 28 n && Nat.leb n 32).

Fixpoint lstrip (s : string) : string :=
  match s with
  | EmptyString => EmptyString
  | String c s' => if is_space c then lstrip s' else s
  end.

Definition rstrip (s : string) : string :=
  String.rev (lstrip (String.rev s)).

Definition strip (s : string) : string := rstrip (lstrip s).

(** Truth value of a string: non-empty. *)
Definition truthy (s : string) : bool :=
  match s with
  | EmptyString => false
  | String _ _ => true
  end.

(** [a or b] on strings. *)
Definition or_else (a b : string) : string :=
  if truthy a then a else b.

(** [min(a, b)]: the first argument unless the second is smaller. *)
Definition min (a b : Q) : Q :=
  if Qlt_le_dec b a then b else a.

(** [collections.deque(maxlen=n).append(x)]: when the deque is full the
    leftmost element is discarded. *)
Definition deque_append {A : Type} (maxlen : nat) (x : A) (d : list A)
  : list A :=
  if Nat.eqb maxlen 0 then d
  else if Nat.ltb (length d) maxlen then d ++ [x]
  else drop 1 d ++ [x].

(** [s.add(k)] on a set of strings. *)
Definition set_add (k : string) (s : gset string) : gset string :=
  Mapset (<[k := tt]> (mapset_car s)).

(** [set(l)]. *)
Definition set_of_list (l : list string) : gset string :=
  foldr set_add ∅ l.

(** [l[-n:]] for [n > 0]. *)
Definition last_n {A : Type} (n : nat) (l : list A) : list A :=
  drop (length l - n) l.

End Py.

(** ** Results of calls into collaborators *)

(** A call returns a value, raises an [Exception] whose [str()] is [e], or
    raises a [BaseException] that is not an [Exception]: the
    [asyncio.CancelledError] of a cancelled task. *)
Inductive outcome (A : Type) : Type :=
  | Ret (a : A)
  | Raise (e : string)
  | Cancel.
Arguments Ret {A} a.
Arguments Raise {A} e.
Arguments Cancel {A}.

Definition outcome_map {A B : Type} (f : A → B) (r : outcome A) : outcome B :=
  match r with
  | Ret a => Ret (f a)
  | Raise e => Raise e
  | Cancel => Cancel
  end.

(** ** Data *)

(** An inbound message, as the dictionary fields the listener reads. *)
Record message : Type := Message {
  msg_text : Py.value;
  msg_id : Py.value;
  msg_type : Py.value;
}.

Record error_entry : Type := ErrorEntry {
  err_time : string;
  err_error : string;
}.

(** [stability_state], the dictionary shared with the status routes. *)
Record stability_state : Type := Stability {
  reconnect_attempts : Z;
  last_heartbeat : Z;
  last_message_time : Z;
  total_messages : Z;
  errors : list error_entry;
}.

(** The local variables of [_background_listener]. *)
Record listener_locals : Type := Locals {
  processed_order : list string;
  processed_set : gset string;
  sent_buffer : list string;
  poll_interval : Q;
  had_messages : bool;
}.

Record world : Type := World {
  is_logged_in : bool;
  stability : stability_state;
  locals : listener_locals;
  listener_running : bool;
  heartbeat_running : bool;
}.

Record config : Type := Config {
  auto_download : bool;
  reconnect_delay : Z;
  max_reconnect_attempts : Z;
}.

(** Observable actions, in program order.  A call is logged together with
    what the environment answered. *)
Inductive event : Type :=
  | EvPrint (line : string)
  | EvCheckLogin (r : outcome unit)
  | EvGetLatest (r : outcome (list message))
  | EvRecorded (key : string)
  | EvDownload (m : message) (r : outcome unit)
  | EvProcess (m : message) (r : outcome (option string))
  | EvSendText (reply : string) (r : outcome bool)
  | EvResync
  | EvSynccheck (r : outcome string)
  | EvSleep (seconds : Z) (r : outcome unit)
  | EvLoadSession (r : outcome unit).

Definition processed_order_maxlen : nat := 5000.
Definition sent_buffer_maxlen : nat := 40.
Definition resync_slack : nat := 100.
Definition errors_kept : nat := 20.
Definition initial_interval : Q := 1.
Definition min_interval : Q := 1 # 2.
Definition max_interval : Q := 3.
Definition backoff_factor : Q := 12 # 10.

Global Arguments processed_order_maxlen : simpl never.
Global Arguments sent_buffer_maxlen : simpl never.
Global Arguments resync_slack : simpl never.
Global Arguments errors_kept : simpl never.
Global Arguments Py.deque_append : simpl never.
Global Arguments Py.last_n : simpl never.
Global Arguments Py.set_add : simpl never.
Global Arguments Py.set_of_list : simpl never.

(** ** What the environment answers *)

(** [bot.check_login_status(poll=True)] and [bot._load_session()] belong to
    the transport: they leave [bot.is_logged_in] in a state of the
    transport's choosing and return or raise. *)
Record login_env : Type := LoginEnv {
  login_state : bool;
  login_result : outcome unit;
}.

(** Answers to the calls made while one message is handled. *)
Record message_env : Type := MessageEnv {
  env_download : outcome unit;
  env_process : outcome (option string);
  env_send_text : outcome bool;
  env_time : Z;
}.

(** Answers to the calls of one listener iteration. *)
Record cycle_env : Type := CycleEnv {
  env_check_login : login_env;
  env_get_latest : outcome (list (message * message_env));
  env_error_time : string;
}.

(** Answers to the calls of one heartbeat iteration. *)
Record heartbeat_env : Type := HeartbeatEnv {
  hb_time : Z;
  hb_synccheck : outcome string;
  hb_sleep : outcome unit;
  hb_load_session : login_env;
  hb_check_login : login_env;
  hb_error_time : string;
}.

(** ** State updates *)

Definition with_locals (f : listener_locals → listener_locals) (w : world)
  : world :=
  World (is_logged_in w) (stability w) (f (locals w))
        (listener_running w) (heartbeat_running w).

Definition with_stability (f : stability_state → stability_state) (w : world)
  : world :=
  World (is_logged_in w) (f (stability w)) (locals w)
        (listener_running w) (heartbeat_running w).

Definition set_logged_in (b : bool) (w : world) : world :=
  World b (stability w) (locals w) (listener_running w) (heartbeat_running w).

Definition set_listener_running (b : bool) (w : world) : world :=
  World (is_logged_in w) (stability w) (locals w) b (heartbeat_running w).

Definition set_heartbeat_running (b : bool) (w : world) : world :=
  World (is_logged_in w) (stability w) (locals w) (listener_running w) b.

Definition set_had_messages (b : bool) : world → world :=
  with_locals (λ l,
    Locals (processed_order l) (processed_set l) (sent_buffer l)
           (poll_interval l) b).

Definition set_poll_interval (q : Q) : world → world :=
  with_locals (λ l,
    Locals (processed_order l) (processed_set l) (sent_buffer l)
           q (had_messages l)).

Definition set_processed_set (s : gset string) : world → world :=
  with_locals (λ l,
    Locals (processed_order l) s (sent_buffer l)
           (poll_interval l) (had_messages l)).

(** [processed_set.add(unique_key); processed_order.append(unique_key)] *)
Definition record_key (key : string) : world → world :=
  with_locals (λ l,
    Locals (Py.deque_append processed_order_maxlen key (processed_order l))
           (Py.set_add key (processed_set l)) (sent_buffer l)
           (poll_interval l) (had_messages l)).

(** [sent_buffer.append(reply)] *)
Definition push_sent (reply : string) : world → world :=
  with_locals (λ l,
    Locals (processed_order l) (processed_set l)
           (Py.deque_append sent_buffer_maxlen reply (sent_buffer l))
           (poll_interval l) (had_messages l)).

Definition set_reconnect_attempts (n : Z) : world → world :=
  with_stability (λ s,
    Stability n (last_heartbeat s) (last_message_time s)
              (total_messages s) (errors s)).

Definition set_last_heartbeat (t : Z) : world → world :=
  with_stability (λ s,
    Stability (reconnect_attempts s) t (last_message_time s)
              (total_messages s) (errors s)).

(** [last_message_time = time.time(); total_messages += 1] *)
Definition note_message (t : Z) : world → world :=
  with_stability (λ s,
    Stability (reconnect_attempts s) (last_heartbeat s) t
              (total_messages s + 1) (errors s)).

(** [_add_error]: append, then keep the last 20 when there are more. *)
Definition add_error_to (time error : string) (errs : list error_entry)
  : list error_entry :=
  let errs' := errs ++ [ErrorEntry time error] in
  if Nat.ltb errors_kept (length errs') then Py.last_n errors_kept errs'
  else errs'.

Definition _add_error (time error : string) : world → world :=
  with_stability (λ s,
    Stability (reconnect_attempts s) (last_heartbeat s) (last_message_time s)
              (total_messages s) (add_error_to time error (errors s))).

(** ** The monad of a loop body: state, trace, and early exit *)

Definition M (A : Type) : Type := world → world * list event * outcome A.

Definition ret {A : Type} (a : A) : M A := λ w, (w, [], Ret a).

Definition bind {A B : Type} (m : M A) (k : A → M B) : M B := λ w,
  match m w with
  | (w1, t1, Ret a) => let '(w2, t2, r) := k a w1 in (w2, t1 ++ t2, r)
  | (w1, t1, Raise e) => (w1, t1, Raise e)
  | (w1, t1, Cancel) => (w1, t1, Cancel)
  end.

Notation "'let*' x ':=' m 'in' k" := (bind m (λ x, k))
  (at level 10, x name, m at level 100, k at level 200,
   format "'[v' 'let*'  x  ':='  m  'in' '/' k ']'").
Notation "m '>>' k" := (bind m (λ _, k))
  (at level 100, k at level 200, right associativity,
   format "'[v' m  '>>' '/' k ']'").

Definition get : M world := λ w, (w, [], Ret w).
Definition modify (f : world → world) : M unit := λ w, (f w, [], Ret tt).
Definition emit (e : event) : M unit := λ w, (w, [e], Ret tt).

(** A call whose answer is [r], logged as [ev r]. *)
Definition call {A : Type} (ev : outcome A → event) (r : outcome A) : M A :=
  λ w, (w, [ev r], r).

(** A call that also leaves [bot.is_logged_in] as the transport decides. *)
Definition login_call (ev : outcome unit → event) (le : login_env) : M unit :=
  λ w, (set_logged_in (login_state le) w, [ev (login_result le)],
        login_result le).

(** [bot.get_latest_messages(limit=12)]; the trace keeps the messages. *)
Definition get_latest (r : outcome (list (message * message_env)))
  : M (list (message * message_env)) :=
  λ w, (w, [EvGetLatest (outcome_map (map fst) r)], r).

Fixpoint for_each {A : Type} (l : list A) (body : A → M unit) : M unit :=
  match l with
  | [] => ret tt
  | x :: l' => body x >> for_each l' body
  end.

(** ** The message listener: [BackgroundTasks._background_listener] *)

(** [content = str(msg.get("text", "")).strip()] *)
Definition message_content (msg : message) : string :=
  Py.strip (Py.str_get (msg_text msg)).

(** [msg_id = str(msg.get("id", "")).strip()] *)
Definition message_id (msg : message) : string :=
  Py.strip (Py.str_get (msg_id msg)).

(** [unique_key = msg_id or content] *)
Definition unique_key (msg : message) : string :=
  Py.or_else (message_id msg) (message_content msg).

(** [msg.get("type") in {"image", "file"}] *)
Definition is_attachment (msg : message) : bool :=
  match msg_type msg with
  | Py.PyStr s => bool_decide (s = "image") || bool_decide (s = "file")
  | _ => false
  end.

(** [content and content in sent_buffer] *)
Definition is_echo (content : string) (w : world) : bool :=
  Py.truthy content && bool_decide (content ∈ sent_buffer (locals w)).

(** The part of the loop body after the echo test: download, dispatch,
    reply, bookkeeping. *)
Definition dispatch_message (cfg : config) (msg : message) (env : message_env)
  : M unit :=
  modify (set_had_messages true) >>
  (if auto_download cfg && is_attachment msg
   then call (EvDownload msg) (env_download env)
   else ret tt) >>
  let* reply := call (EvProcess msg) (env_process env) in
  match reply with
  | Some text =>
      if Py.truthy text then
        let* ok := call (EvSendText text) (env_send_text env) in
        if ok : bool then modify (push_sent text) else ret tt
      else ret tt
  | None => ret tt
  end >>
  modify (note_message (env_time env)).

(** The body of [for msg in reversed(messages)]. *)
Definition handle_message (cfg : config) (me : message * message_env)
  : M unit :=
  let msg := me.1 in
  let key := unique_key msg in
  if negb (Py.truthy key) then ret tt else
  let* w := get in
  if bool_decide (key ∈ processed_set (locals w)) then ret tt else
  modify (record_key key) >>
  emit (EvRecorded key) >>
  let* w := get in
  if is_echo (message_content msg) w then ret tt else
  dispatch_message cfg msg me.2.

(** [if len(processed_set) > len(processed_order) + 100:
       processed_set = set(processed_order)] *)
Definition resync_due (l : listener_locals) : bool :=
  Nat.ltb (length (processed_order l) + resync_slack)
          (size (processed_set l)).

Definition resync : M unit :=
  let* w := get in
  if resync_due (locals w) then
    modify (set_processed_set (Py.set_of_list (processed_order (locals w)))) >>
    emit EvResync
  else ret tt.

(** [poll_interval = min_interval if had_messages
     else min(poll_interval * 1.2, max_interval)] *)
Definition next_interval (l : listener_locals) : Q :=
  if had_messages l then min_interval
  else Py.min (poll_interval l * backoff_factor) max_interval.

Definition adjust_interval : M unit :=
  let* w := get in
  modify (set_poll_interval (next_interval (locals w))).

(** [if not self.bot.is_logged_in: ...]: the listener's connectivity
    check. *)
Definition restore_login (env : cycle_env) : M unit :=
  let* w := get in
  if negb (is_logged_in w) then
    login_call EvCheckLogin (env_check_login env) >>
    let* w := get in
    if is_logged_in w then
      modify (set_reconnect_attempts 0) >>
      emit (EvPrint "[Listener] Login restored")
    else ret tt
  else ret tt.

(** [if self.bot.is_logged_in: ...]: fetch, handle each message oldest
    first, resync. *)
Definition poll_messages (cfg : config) (env : cycle_env) : M unit :=
  let* w := get in
  if is_logged_in w then
    let* messages := get_latest (env_get_latest env) in
    for_each (rev messages) (handle_message cfg) >>
    resync
  else ret tt.

(** The [try] block of one iteration. *)
Definition listener_try (cfg : config) (env : cycle_env) : M unit :=
  modify (set_had_messages false) >>
  restore_login env >>
  poll_messages cfg env >>
  adjust_interval.

(** How an iteration of a loop ended. *)
Inductive status : Type :=
  | Completed
  | Failed (e : string)
  | Cancelled
  | NotRunning.

(** One iteration of [while True], up to the [await asyncio.sleep]. *)
Definition listener_iteration (cfg : config) (env : cycle_env) (w : world)
  : world * list event * status :=
  if negb (listener_running w) then (w, [], NotRunning) else
  match listener_try cfg env w with
  | (w1, tr, Ret _) => (w1, tr, Completed)
  | (w1, tr, Raise e) =>
      let error_msg := "Listener error: " +:+ e in
      (set_poll_interval max_interval
         (_add_error (env_error_time env) error_msg w1),
       tr ++ [EvPrint ("[Listener] " +:+ error_msg)],
       Failed e)
  | (w1, tr, Cancel) => (set_listener_running false w1, tr, Cancelled)
  end.

(** ** The heartbeat monitor: [BackgroundTasks._heartbeat_monitor] *)

Definition max_attempts_message (cfg : config) : string :=
  "Max reconnect attempts (" +:+ pretty (max_reconnect_attempts cfg)
    +:+ ") reached".

Definition heartbeat_try (cfg : config) (env : heartbeat_env) : M unit :=
  modify (set_last_heartbeat (hb_time env)) >>
  let* w := get in
  if is_logged_in w then
    let* st := call EvSynccheck (hb_synccheck env) in
    if bool_decide (st = "loginout") then
      emit (EvPrint "[Heartbeat] Detected logout, will reconnect") >>
      modify (set_logged_in false) >>
      let* w := get in
      modify (set_reconnect_attempts (reconnect_attempts (stability w) + 1)) >>
      let* w := get in
      if bool_decide (reconnect_attempts (stability w)
                      ≤ max_reconnect_attempts cfg)%Z
      then
        call (EvSleep (reconnect_delay cfg)) (hb_sleep env) >>
        login_call EvLoadSession (hb_load_session env) >>
        login_call EvCheckLogin (hb_check_login env)
      else
        modify (_add_error (hb_error_time env) (max_attempts_message cfg))
    else ret tt
  else ret tt.

Definition heartbeat_iteration (cfg : config) (env : heartbeat_env)
  (w : world) : world * list event * status :=
  if negb (heartbeat_running w) then (w, [], NotRunning) else
  match heartbeat_try cfg env w with
  | (w1, tr, Ret _) => (w1, tr, Completed)
  | (w1, tr, Raise e) =>
      (_add_error (hb_error_time env) ("Heartbeat error: " +:+ e) w1, tr,
       Failed e)
  | (w1, tr, Cancel) => (set_heartbeat_running false w1, tr, Cancelled)
  end.

(** ** The system: interleaved iterations *)

(** A step is an iteration of the listener, an iteration of the heartbeat
    monitor, or a status route ([/webui/status], [/health]) polling the
    login state, which refreshes [bot.is_logged_in]. *)
Inductive step : Type :=
  | ListenerStep (env : cycle_env)
  | HeartbeatStep (env : heartbeat_env)
  | RouteLoginCheck (logged : bool).

Record step_record : Type := StepRecord {
  rec_step : step;
  rec_before : world;
  rec_trace : list event;
  rec_status : status;
  rec_after : world;
}.

Definition do_step (cfg : config) (st : step) (w : world)
  : world * list event * status :=
  match st with
  | ListenerStep env => listener_iteration cfg env w
  | HeartbeatStep env => heartbeat_iteration cfg env w
  | RouteLoginCheck b => (set_logged_in b w, [], Completed)
  end.

Fixpoint run (cfg : config) (w : world) (steps : list step)
  : world * list step_record :=
  match steps with
  | [] => (w, [])
  | st :: steps' =>
      let '(w1, tr, s) := do_step cfg st w in
      let '(w2, recs) := run cfg w1 steps' in
      (w2, StepRecord st w tr s w1 :: recs)
  end.

Definition trace_of (recs : list step_record) : list event :=
  concat (map rec_trace recs).

(** The state when [start_all] has created the tasks: the listener's
    locals are fresh; the transport's login flag and the shared
    [stability_state] are whatever the application passed in. *)
Definition fresh_locals : listener_locals :=
  Locals [] ∅ [] initial_interval false.

Definition initial_world (logged : bool) (stab : stability_state) : world :=
  World logged stab fresh_locals true true.

Definition fresh_stability : stability_state := Stability 0 0 0 0 [].

(** * Vocabulary of the properties *)

(** ** Views of a trace *)

(** Keys appended to [processed_order], oldest first. *)
Definition recorded_keys (t : list event) : list string :=
  omap (λ e, match e with EvRecorded k => Some k | _ => None end) t.

(** Messages handed to [processor.process], oldest first. *)
Definition dispatched (t : list event) : list message :=
  omap (λ e, match e with EvProcess m _ => Some m | _ => None end) t.

(** Replies for which [bot.send_text] answered true, oldest first. *)
Definition sent_replies (t : list event) : list string :=
  omap (λ e, match e with EvSendText s (Ret true) => Some s | _ => None end) t.

(** Events of the connectivity check. *)
Definition login_event (e : event) : bool :=
  match e with EvCheckLogin _ | EvPrint _ => true | _ => false end.

(** Events of the handling of a message. *)
Definition message_event (e : event) : bool :=
  match e with
  | EvRecorded _ | EvDownload _ _ | EvProcess _ _ | EvSendText _ _ => true
  | _ => false
  end.

(** Events of a reconnect attempt by the heartbeat monitor. *)
Definition reconnect_event (e : event) : bool :=
  match e with
  | EvSleep _ _ | EvLoadSession _ | EvCheckLogin _ => true
  | _ => false
  end.

(** ** The four ways a message is disposed of *)

Inductive disposition : Type :=
  | SkipEmpty
  | SkipSeen
  | SkipEcho
  | Dispatch.

(** The tests of the loop body, in the order the listener makes them,
    given the contents of [processed_set] and [sent_buffer]. *)
Definition classify (known : gset string) (sent : list string)
  (msg : message) : disposition :=
  if negb (Py.truthy (unique_key msg)) then SkipEmpty
  else if bool_decide (unique_key msg ∈ known) then SkipSeen
  else if Py.truthy (message_content msg)
          && bool_decide (message_content msg ∈ sent) then SkipEcho
  else Dispatch.

Definition classify_in (w : world) (msg : message) : disposition :=
  classify (processed_set (locals w)) (sent_buffer (locals w)) msg.


(** ** A monitor for the dedup discipline

    It reads a trace and checks that a key is recorded only when it is not
    among the last 5000 recorded keys, and that a message is dispatched
    only right after its own key was recorded. *)

Record ghost : Type := Ghost {
  seen : list string;
  pending : bool;
  sound : bool;
}.

Definition observe (g : ghost) (e : event) : ghost :=
  match e with
  | EvRecorded k =>
      Ghost (seen g ++ [k]) true
        (sound g
         && bool_decide (k ∉ Py.last_n processed_order_maxlen (seen g)))
  | EvProcess m _ =>
      Ghost (seen g) false
        (sound g && pending g
         && bool_decide (last (seen g) = Some (unique_key m)))
  | _ => g
  end.

Definition monitor_from (g : ghost) (t : list event) : ghost :=
  foldl observe g t.

Definition monitor (t : list event) : ghost :=
  monitor_from (Ghost [] false true) t.

(** ** Relating the state to the trace so far *)

(** [tracks R m]: if [R] relates the state to the trace so far, it still
    does after [m], however [m] ends. *)
Definition tracks {A : Type} (R : world → list event → Prop) (m : M A) : Prop :=
  ∀ w t w' tr r, m w = (w', tr, r) → R w t → R w' (t ++ tr).

(** ** The listener's invariant *)

Record listener_inv (w : world) (t : list event) : Prop := ListenerInv {
  inv_order :
    processed_order (locals w)
    = Py.last_n processed_order_maxlen (recorded_keys t);
  inv_sent :
    sent_buffer (locals w) = Py.last_n sent_buffer_maxlen (sent_replies t);
  inv_nodup : NoDup (processed_order (locals w));
  inv_subset :
    ∀ k, k ∈ processed_order (locals w) → k ∈ processed_set (locals w);
  inv_sound : sound (monitor t) = true;
}.

(** Events that concern neither the dedup structures nor the echo buffer. *)
Definition bystander (e : event) : bool :=
  match e with
  | EvRecorded _ | EvProcess _ _ | EvSendText _ _ => false
  | _ => true
  end.

(** ** Concrete inputs *)

Module Scenario.

Definition cfg : config := Config true 5 10.

(** A text message with a numeric id. *)
Definition numbered (i : nat) : message :=
  Message (Py.PyStr "hello") (Py.PyInt (Z.of_nat i)) (Py.PyStr "text").

(** A text message with a string id. *)
Definition named (id text : string) : message :=
  Message (Py.PyStr text) (Py.PyStr id) (Py.PyStr "text").

(** The processor has no reply. *)
Definition quiet : message_env := MessageEnv (Ret tt) (Ret None) (Ret true) 0.

(** The processor replies, and the reply is sent. *)
Definition replying (reply : string) : message_env :=
  MessageEnv (Ret tt) (Ret (Some reply)) (Ret true) 0.

(** The processor raises. *)
Definition failing : message_env :=
  MessageEnv (Ret tt) (Raise "boom") (Ret true) 0.

Definition online : login_env := LoginEnv true (Ret tt).
Definition offline : login_env := LoginEnv false (Ret tt).

(** A listener iteration whose fetch answers [msgs] (newest first). *)
Definition poll (msgs : list (message * message_env)) : step :=
  ListenerStep (CycleEnv online (Ret msgs) "2026-01-01T00:00:00").

(** [n] messages numbered from [first], newest first. *)
Definition batch (first n : nat) : list (message * message_env) :=
  rev (map (λ i, (numbered i, quiet)) (seq first n)).

(** [cycles] polls of [per] fresh messages each. *)
Definition flood (cycles per : nat) : list step :=
  map (λ c, poll (batch (c * per) per)) (seq 0 cycles).

Definition start : world := initial_world true fresh_stability.



End Scenario.

(** ** Bounded buffers *)

Definition bounded (w : world) : Prop :=
  length (processed_order (locals w)) ≤ processed_order_maxlen
  ∧ length (sent_buffer (locals w)) ≤ sent_buffer_maxlen.

(** ** What the message loop does *)

(** The state [w] and trace [t] of a message loop started in [w0]. *)
Record loop_rel (w0 w : world) (t : list event) : Prop := LoopRel {
  loop_logged : is_logged_in w = is_logged_in w0;
  loop_listener : listener_running w = listener_running w0;
  loop_heartbeat : heartbeat_running w = heartbeat_running w0;
  loop_attempts :
    reconnect_attempts (stability w) = reconnect_attempts (stability w0);
  loop_errors : errors (stability w) = errors (stability w0);
  loop_interval : poll_interval (locals w) = poll_interval (locals w0);
  loop_set :
    processed_set (locals w)
    = processed_set (locals w0) ∪ list_to_set (recorded_keys t);
  loop_events : Forall (λ e, message_event e = true) t;
}.

(** ** Backoff *)


Definition is_listener_step (st : step) : bool :=
  match st with ListenerStep _ => true | _ => false end.



(** ** The fault boundary *)

(** What the listener's [try] block leaves alone, however it ends. *)
Definition untouched (w0 w : world) : Prop :=
  errors (stability w) = errors (stability w0)
  ∧ listener_running w = listener_running w0
  ∧ heartbeat_running w = heartbeat_running w0.

(** ** Drift of [processed_set] *)

Definition is_resync (e : event) : bool :=
  match e with EvResync => true | _ => false end.

(** The iteration fetched messages: it went through its logged-in
    branch. *)
Definition fetched (rec : step_record) : Prop :=
  ∃ ms, EvGetLatest (Ret ms) ∈ rec_trace rec.

(** The drift property of one step of a run. *)
Definition drift_ok (rec : step_record) : Prop :=
  let before := locals (rec_before rec) in
  let after := locals (rec_after rec) in
  let grown :=
    processed_set before ∪ list_to_set (recorded_keys (rec_trace rec)) in
  list_to_set (processed_order after) ⊆ processed_set after
  ∧ (rec_status rec = Completed → fetched rec →
     (EvResync ∈ rec_trace rec
      ↔ length (processed_order after) + resync_slack < size grown)
     ∧ (EvResync ∈ rec_trace rec →
        processed_set after = list_to_set (processed_order after))
     ∧ (EvResync ∉ rec_trace rec → processed_set after = grown)
     ∧ size (processed_set after ∖ list_to_set (processed_order after))
       ≤ resync_slack).

(** ** Reconnecting *)

(** The heartbeat monitor saw a logout: [_synccheck] answered
    ["loginout"]. *)
Definition is_detection (e : event) : bool :=
  match e with
  | EvSynccheck (Ret st) => bool_decide (st = "loginout")
  | _ => false
  end.

(** The listener saw the login restored and reset the counter. *)
Definition is_reset (e : event) : bool :=
  match e with
  | EvPrint line => bool_decide (line = "[Listener] Login restored")
  | _ => false
  end.

Definition detections (t : list event) : nat :=
  length (List.filter is_detection t).

Definition resets (t : list event) : nat :=
  length (List.filter is_reset t).

(** The trace shows a reconnect attempt: the delay, the session restore or
    the connectivity check. *)
Definition reconnects (t : list event) : bool := existsb reconnect_event t.

Definition is_heartbeat_step (st : step) : bool :=
  match st with HeartbeatStep _ => true | _ => false end.

(** The state and trace of a stretch of code that neither touches the
    reconnect counter nor logs a detection or a reset. *)
Definition counter_rel (a : Z) (d r : nat) (w : world) (t : list event)
  : Prop :=
  reconnect_attempts (stability w) = a ∧ detections t = d ∧ resets t = r.

Module Outage.

(** A heartbeat iteration that finds the session logged out; the
    connectivity check of its reconnect attempt, if it makes one, leaves
    the login flag as [after] says. *)
Definition logout_tick (after : login_env) : step :=
  HeartbeatStep
    (HeartbeatEnv 0 (Ret "loginout") (Ret tt) Scenario.offline after
       "2026-01-01T00:00:30").





End Outage.

(** * The scheduled-task creation route: [src/routes/framework.py] *)

Module Tasks.

Import Stdlib.Strings.Ascii.

(** ** The pattern of [TaskCreatePayload.time_hm] *)

(** The regular expressions the pattern is built from.  Text is ASCII:
    [\d] is [0-9]. *)
Inductive regex : Type :=
  | Lit (c : Ascii.ascii)
  | OneOf (cs : list Ascii.ascii)
  | Range (lo hi : Ascii.ascii)
  | Digit
  | Cat (r1 r2 : regex)
  | Alt (r1 r2 : regex).

Definition code (c : Ascii.ascii) : nat := Ascii.nat_of_ascii c.

Definition in_range (lo hi c : Ascii.ascii) : bool :=
  Nat.leb (code lo) (code c) && Nat.leb (code c) (code hi).

(** [matches_then r s k]: [r] matches a prefix of [s] and [k] accepts the
    rest. *)
Fixpoint matches_then (r : regex) (s : string) (k : string → bool) : bool :=
  match r with
  | Lit c =>
      match s with
      | String c' s' => Ascii.eqb c c' && k s'
      | EmptyString => false
      end
  | OneOf cs =>
      match s with
      | String c' s' => existsb (Ascii.eqb c') cs && k s'
      | EmptyString => false
      end
  | Range lo hi =>
      match s with
      | String c' s' => in_range lo hi c' && k s'
      | EmptyString => false
      end
  | Digit =>
      match s with
      | String c' s' => in_range "0"%char "9"%char c' && k s'
      | EmptyString => false
      end
  | Cat r1 r2 => matches_then r1 s (λ s', matches_then r2 s' k)
  | Alt r1 r2 => matches_then r1 s k || matches_then r2 s k
  end.

(** A pattern anchored by [^] and [$]: the whole text matches. *)
Definition full_match (r : regex) (s : string) : bool :=
  matches_then r s (λ rest, match rest with EmptyString => true | _ => false end).

(** [^([01]\d|2[0-3]):[0-5]\d$] *)
Definition time_hm_pattern : regex :=
  Cat (Alt (Cat (OneOf ["0"; "1"]%char) Digit)
           (Cat (Lit "2"%char) (Range "0"%char "3"%char)))
      (Cat (Lit ":"%char) (Cat (Range "0"%char "5"%char) Digit)).

(** ** Requests and responses *)


Record task : Type := Task {
  task_id : string;
  time_hm : string;
  command_text : string;
  enabled : bool;
  description : string;
}.

(** What the HTTP caller gets back. *)
Inductive response : Type :=
  | Ok200 (body : task)
  | HttpError (status_code : nat) (detail : list string).

(** The command processor's task table. *)
Record processor : Type := Processor {
  tasks : list task;
  next_task : nat;
}.


(** ** The time format in the spec's words *)








End Tasks.

(** * Further vocabulary *)

(** ** Stripping *)

(** A string does not begin with whitespace. *)
Definition starts_clean (s : string) : bool :=
  match s with
  | EmptyString => true
  | String c _ => negb (Py.is_space c)
  end.

(** Every character is whitespace. *)
Fixpoint all_space (s : string) : bool :=
  match s with
  | EmptyString => true
  | String c s' => Py.is_space c && all_space s'
  end.

(** ** Keys and replies *)

(** The keys and replies an event carries are not empty. *)
Definition keyed (e : event) : Prop :=
  match e with
  | EvRecorded k => k ≠ ""
  | EvProcess m _ => unique_key m ≠ ""
  | EvSendText reply _ => reply ≠ ""
  | _ => True
  end.

(** A download is of an attachment, and only with [auto_download]. *)
Definition download_allowed (cfg : config) (e : event) : Prop :=
  match e with
  | EvDownload m _ => auto_download cfg = true ∧ is_attachment m = true
  | _ => True
  end.

(** Every [send_text] in the trace comes right after a call of
    [processor.process] that returned the text sent; [prev] is the event
    before the trace. *)
Fixpoint replies_justified (prev : option event) (t : list event) : bool :=
  match t with
  | [] => true
  | e :: t' =>
      match e with
      | EvSendText text _ =>
          match prev with
          | Some (EvProcess _ (Ret (Some reply))) => bool_decide (text = reply)
          | _ => false
          end
      | _ => true
      end && replies_justified (Some e) t'
  end.

(** ** The poll interval *)

Definition interval_in_range (w : world) : Prop :=
  (min_interval <= poll_interval (locals w))%Q
  ∧ (poll_interval (locals w) <= max_interval)%Q.


(** * File downloads: [BackgroundTasks._handle_file_download] *)

Module Download.

Import Stdlib.Strings.Ascii.

(** [s[:n]] *)
Fixpoint str_take (n : nat) (s : string) : string :=
  match n, s with
  | S n', String c s' => String c (str_take n' s')
  | _, _ => EmptyString
  end.

(** [c in s] for a single character [c]. *)
Fixpoint contains (c : Ascii.ascii) (s : string) : bool :=
  match s with
  | EmptyString => false
  | String c' s' => Ascii.eqb c c' || contains c s'
  end.

(** [msg.get("type") == "image"] *)
Definition is_image (msg : message) : bool :=
  match msg_type msg with
  | Py.PyStr s => bool_decide (s = "image")
  | _ => false
  end.

(** A message with an attachment: the fields the listener reads, and
    [msg.get("file_name")], which is a [str], or [None] (also when the key
    is absent). *)
Record attachment : Type := Attachment {
  att_message : message;
  att_file_name : option string;
}.

(** A [pathlib.Path] built with [/]: its operands, in order. *)
Definition path : Type := list string.

Record download_config : Type := DownloadConfig {
  download_dir : path;
  file_date_subdir : bool;
}.

(** Calls made while a file is downloaded, with what they answered. *)
Inductive download_event : Type :=
  | DlMkdir (dir : path) (r : outcome unit)
  | DlDownload (id : string) (save_path : path) (r : outcome bool)
  | DlStat (save_path : path) (r : outcome (option Z))
  | DlSaveFile (msg_id file_name : string) (file_path : path) (file_size : Z)
      (mime_type : option string) (r : outcome unit).

(** What the environment answers: the date, [mkdir], the transport's
    download, the size of the saved file ([None] when it does not exist),
    [mimetypes.guess_type] and [message_store.save_file]. *)
Record download_env : Type := DownloadEnv {
  dl_date : string;
  dl_mkdir : outcome unit;
  dl_download : outcome bool;
  dl_stat : outcome (option Z);
  dl_mime : option string;
  dl_save_file : outcome unit;
}.

(** The keys [_handle_file_download] writes into the message. *)
Record file_fields : Type := FileFields {
  file_path : option path;
  file_size : option Z;
}.

(** [f"download_{msg_id[:8] or order_len}"] *)
Definition default_file_name (msg_id : string) (order_len : nat) : string :=
  "download_" +:+ Py.or_else (str_take 8 msg_id) (pretty order_len).

(** The first three lines of [_handle_file_download]. *)
Definition file_name_of (att : attachment) (msg_id : string) (order_len : nat)
  : string :=
  let file_name :=
    match att_file_name att with
    | Some s => Py.or_else s (default_file_name msg_id order_len)
    | None => default_file_name msg_id order_len
    end in
  if is_image (att_message att) && negb (contains "." file_name)
  then file_name +:+ ".jpg"
  else file_name.

Definition _get_file_save_path (cfg : download_config) (env : download_env)
  (file_name : string) : list download_event * outcome path :=
  if file_date_subdir cfg then
    let target_dir := download_dir cfg ++ [dl_date env] in
    ([DlMkdir target_dir (dl_mkdir env)],
     outcome_map (λ _, target_dir ++ [file_name]) (dl_mkdir env))
  else ([], Ret (download_dir cfg ++ [file_name])).

Definition _handle_file_download (cfg : download_config) (env : download_env)
  (att : attachment) (msg_id unique_key : string) (order_len : nat)
  : file_fields * list download_event * outcome unit :=
  let file_name := file_name_of att msg_id order_len in
  let unchanged := FileFields None None in
  match _get_file_save_path cfg env file_name with
  | (t, Ret save_path) =>
      let id := Py.or_else msg_id unique_key in
      let t := t ++ [DlDownload id save_path (dl_download env)] in
      match dl_download env with
      | Ret true =>
          let t := t ++ [DlStat save_path (dl_stat env)] in
          match dl_stat env with
          | Ret st =>
              let size := default 0%Z st in
              (FileFields (Some save_path) (Some size),
               t ++ [DlSaveFile msg_id file_name save_path size (dl_mime env)
                       (dl_save_file env)],
               dl_save_file env)
          | Raise e => (FileFields (Some save_path) None, t, Raise e)
          | Cancel => (FileFields (Some save_path) None, t, Cancel)
          end
      | Ret false => (unchanged, t, Ret tt)
      | Raise e => (unchanged, t, Raise e)
      | Cancel => (unchanged, t, Cancel)
      end
  | (t, Raise e) => (unchanged, t, Raise e)
  | (t, Cancel) => (unchanged, t, Cancel)
  end.

(** The call at line 151 of the listener:
    [_handle_file_download(msg, msg_id, unique_key, len(processed_order))]. *)
Definition listener_download (cfg : download_config) (env : download_env)
  (att : attachment) (w : world)
  : file_fields * list download_event * outcome unit :=
  _handle_file_download cfg env att (message_id (att_message att))
    (unique_key (att_message att)) (length (processed_order (locals w))).

Definition saved (e : download_event) : bool :=
  match e with DlSaveFile _ _ _ _ _ _ => true | _ => false end.

End Download.

(** * Session saving and file cleanup:
      [_periodic_session_saver], [_file_cleanup_task], [start_all] *)

Module Housekeeping.

Inductive hk_event : Type :=
  | HkSaveSession (r : outcome unit)
  | HkCleanup (days : Z) (r : outcome Z)
  | HkPrint (line : string).

(** The four tasks of [BackgroundTasks]: the listener and the heartbeat
    monitor with the state they share, and whether the session saver and
    the cleanup task exist and have not ended. *)
Record tasks : Type := Tasks {
  core : world;
  saver_running : bool;
  cleanup_running : bool;
}.

(** [start_all]: the cleanup task is created only when
    [file_retention_days > 0]. *)
Definition start_all (file_retention_days : Z) (logged : bool)
  (stab : stability_state) : tasks :=
  Tasks (initial_world logged stab) true
        (bool_decide (0 < file_retention_days)%Z).

(** One iteration of [_periodic_session_saver], after its sleep. *)
Definition session_saver_iteration (save : outcome unit) (ts : tasks)
  : tasks * list hk_event * status :=
  if negb (saver_running ts) then (ts, [], NotRunning) else
  if is_logged_in (core ts) then
    match save with
    | Ret _ => (ts, [HkSaveSession save], Completed)
    | Raise e =>
        (ts, [HkSaveSession save; HkPrint ("[SessionSaver] Error: " +:+ e)],
         Failed e)
    | Cancel =>
        (Tasks (core ts) false (cleanup_running ts), [HkSaveSession save],
         Cancelled)
    end
  else (ts, [], Completed).

(** One iteration of [_file_cleanup_task], after its sleep. *)
Definition cleanup_iteration (file_retention_days : Z) (cleanup : outcome Z)
  (error_time : string) (ts : tasks) : tasks * list hk_event * status :=
  if negb (cleanup_running ts) then (ts, [], NotRunning) else
  let ev := HkCleanup file_retention_days cleanup in
  match cleanup with
  | Ret deleted_count =>
      (ts,
       if bool_decide (0 < deleted_count)%Z
       then [ev; HkPrint ("[Cleanup] Deleted " +:+ pretty deleted_count
                            +:+ " old files")]
       else [ev],
       Completed)
  | Raise e =>
      (Tasks (_add_error error_time ("Cleanup error: " +:+ e) (core ts))
             (saver_running ts) (cleanup_running ts),
       [ev], Failed e)
  | Cancel => (Tasks (core ts) (saver_running ts) false, [ev], Cancelled)
  end.

(** A step of the whole: an iteration of one of the four loops, or a
    status route. *)
Inductive task_step : Type :=
  | CoreStep (st : step)
  | SaverStep (save : outcome unit)
  | CleanupStep (cleanup : outcome Z) (error_time : string).

Definition do_task_step (cfg : config) (file_retention_days : Z)
  (st : task_step) (ts : tasks)
  : tasks * list (event + hk_event) * status :=
  match st with
  | CoreStep st =>
      let '(w, tr, s) := do_step cfg st (core ts) in
      (Tasks w (saver_running ts) (cleanup_running ts), map inl tr, s)
  | SaverStep save =>
      let '(ts', tr, s) := session_saver_iteration save ts in
      (ts', map inr tr, s)
  | CleanupStep cleanup error_time =>
      let '(ts', tr, s) :=
        cleanup_iteration file_retention_days cleanup error_time ts in
      (ts', map inr tr, s)
  end.

Fixpoint run_tasks (cfg : config) (file_retention_days : Z) (ts : tasks)
  (steps : list task_step) : tasks * list (event + hk_event) :=
  match steps with
  | [] => (ts, [])
  | st :: steps' =>
      let '(ts1, tr, _) := do_task_step cfg file_retention_days st ts in
      let '(ts2, tr') := run_tasks cfg file_retention_days ts1 steps' in
      (ts2, tr ++ tr')
  end.

End Housekeeping.

(** * The webhook routes of [src/routes/bot.py] *)

Module Webhook.

(** The command processor, as far as the webhook routes use it. *)
Record processor : Type := Processor {
  message_webhook_url : string;
}.

(** The JSON bodies of the three routes. *)
Inductive body : Type :=
  | WasSet            (* ok, result: true, description: "Webhook was set" *)
  | Deleted           (* ok, result: true *)
  | Info (url : string).

(** [_get_processor()]: the module-level [_processor] is [None] until
    [init] has run. *)
Definition _get_processor (p : option processor) : outcome processor :=
  match p with
  | Some proc => Ret proc
  | None => Raise "Processor not initialized"
  end.

(** [POST /bot/setWebhook] *)
Definition set_webhook (url : string) (p : option processor)
  : option processor * outcome body :=
  match _get_processor p with
  | Ret _ => (Some (Processor (Py.strip url)), Ret WasSet)
  | Raise e => (p, Raise e)
  | Cancel => (p, Cancel)
  end.

(** [POST /bot/deleteWebhook] *)
Definition delete_webhook (p : option processor)
  : option processor * outcome body :=
  match _get_processor p with
  | Ret _ => (Some (Processor ""), Ret Deleted)
  | Raise e => (p, Raise e)
  | Cancel => (p, Cancel)
  end.

(** [GET /bot/getWebhookInfo] *)
Definition get_webhook_info (p : option processor)
  : option processor * outcome body :=
  (p, outcome_map (λ proc, Info (message_webhook_url proc)) (_get_processor p)).

End Webhook.

(** * The stability route of [src/routes/framework.py] *)

Module Status.

(** The fields of [config.settings] the route reads. *)
Record settings : Type := Settings {
  set_max_reconnect_attempts : Z;
  set_heartbeat_interval : Z;
  set_reconnect_delay : Z;
  set_file_retention_days : Z;
}.

(** The JSON body of [GET /stability]. *)
Record stability_body : Type := StabilityBody {
  body_reconnect_attempts : Z;
  body_max_reconnect_attempts : Z;
  body_last_heartbeat : Z;
  body_last_message_time : Z;
  body_total_messages : Z;
  body_recent_errors : list error_entry;
  body_heartbeat_interval : Z;
  body_reconnect_delay : Z;
  body_file_retention_days : Z;
}.

(** [_get_stability()]: the module-level [_stability_state] is [None]
    until [init] has run; afterwards it is the dictionary the background
    loops write. *)
Definition _get_stability (s : option stability_state)
  : outcome stability_state :=
  match s with
  | Some st => Ret st
  | None => Raise "Stability state not initialized"
  end.

(** [GET /stability] *)
Definition stability_status (cfg : settings) (s : option stability_state)
  : outcome stability_body :=
  outcome_map (λ st,
    StabilityBody (reconnect_attempts st) (set_max_reconnect_attempts cfg)
      (last_heartbeat st) (last_message_time st) (total_messages st)
      (errors st) (set_heartbeat_interval cfg) (set_reconnect_delay cfg)
      (set_file_retention_days cfg))
    (_get_stability s).

(** [init(processor, bot, stability_state)], as far as the route goes: the
    dictionary of the running loops becomes the module's. *)
Definition init (w : world) : option stability_state := Some (stability w).

End Status.

(** * The download listing of [src/routes/files.py] *)

Module Files.

Import Stdlib.Strings.Ascii.

(** An entry of the listing: name, path relative to the download
    directory, size, modification time. *)
Record file_entry : Type := FileEntry {
  fe_name : string;
  fe_path : string;
  fe_size : Z;
  fe_modified : Q;
}.

(** What a directory scan meets: the name, the relative path, whether the
    entry is a regular file, and what [stat] answers ([None] for an
    [OSError]). *)
Record dir_entry : Type := DirEntry {
  de_name : string;
  de_path : string;
  de_is_file : bool;
  de_stat : option (Z * Q);
}.

(** The download directory: the file names [os.walk] yields, and the
    entries of [os.scandir] ([None] when it raises [OSError]). *)
Record filesystem : Type := FileSystem {
  fs_walk : list dir_entry;
  fs_scandir : option (list dir_entry);
}.

(** [name.startswith(".")] *)
Definition hidden (name : string) : bool :=
  match name with
  | String c _ => Ascii.eqb c "."%char
  | EmptyString => false
  end.

(** The loop body of the [os.walk] branch. *)
Definition walk_entry (e : dir_entry) : option file_entry :=
  if hidden (de_name e) then None else
  match de_stat e with
  | Some (size, mtime) => Some (FileEntry (de_name e) (de_path e) size mtime)
  | None => None
  end.

(** The loop body of the [os.scandir] branch. *)
Definition scandir_entry (e : dir_entry) : option file_entry :=
  if de_is_file e && negb (hidden (de_name e)) then
    match de_stat e with
    | Some (size, mtime) => Some (FileEntry (de_name e) (de_name e) size mtime)
    | None => None
    end
  else None.

(** [files.sort(key=lambda x: x["modified"], reverse=True)]: newest first,
    entries with equal times in their original order. *)
Fixpoint insert_desc (x : file_entry) (l : list file_entry)
  : list file_entry :=
  match l with
  | [] => [x]
  | y :: l' =>
      if Qle_bool (fe_modified y) (fe_modified x) then x :: l
      else y :: insert_desc x l'
  end.

Definition sort_desc (l : list file_entry) : list file_entry :=
  foldr insert_desc [] l.

(** [_downloads_cache] (keyed by [include_subdirs]) and
    [_downloads_cache_time]. *)
Record cache : Type := Cache {
  downloads_cache : option (gmap bool (list file_entry));
  downloads_cache_time : Q;
}.

Definition downloads_cache_ttl : Q := 10.

Definition initial_cache : cache := Cache None 0.

Inductive fs_event : Type :=
  | FsWalk
  | FsScandir.

(** The listing a fresh scan produces. *)
Definition scan (fs : filesystem) (include_subdirs : bool)
  : list file_entry :=
  sort_desc
    (if include_subdirs then omap walk_entry (fs_walk fs)
     else match fs_scandir fs with
          | Some entries => omap scandir_entry entries
          | None => []
          end).

(** The cached listing, when there is one and it is fresh. *)
Definition cached (now : Q) (include_subdirs : bool) (c : cache)
  : option (list file_entry) :=
  match downloads_cache c with
  | Some m =>
      match m !! include_subdirs with
      | Some files =>
          if Qlt_le_dec (now - downloads_cache_time c) downloads_cache_ttl
          then Some files else None
      | None => None
      end
  | None => None
  end.

Definition _scan_downloads (fs : filesystem) (now : Q)
  (include_subdirs : bool) (c : cache)
  : cache * list fs_event * list file_entry :=
  match cached now include_subdirs c with
  | Some files => (c, [], files)
  | None =>
      let files := scan fs include_subdirs in
      (Cache (Some (<[include_subdirs := files]>
                      (default ∅ (downloads_cache c)))) now,
       [if include_subdirs then FsWalk else FsScandir],
       files)
  end.

Definition invalidate_downloads_cache (c : cache) : cache :=
  Cache None (downloads_cache_time c).

Inductive response : Type :=
  | Listing (files : list file_entry) (total : nat)
  | DeletedFile (msg_id : string)
  | HttpError (status_code : nat) (detail : string).

(** [GET /downloads]; [limit] is validated ([ge=1, le=1000]) before the
    handler runs. *)
Definition list_downloads (fs : filesystem) (now : Q) (limit : Z)
  (include_subdirs : bool) (c : cache) : cache * list fs_event * response :=
  if bool_decide (1 ≤ limit ≤ 1000)%Z then
    let '(c', tr, files) := _scan_downloads fs now include_subdirs c in
    (c', tr, Listing (take (Z.to_nat limit) files) (length files))
  else (c, [], HttpError 422 "limit").

(** What [delete_file] finds on disk: what [path.exists()] and
    [path.unlink()] answer. *)
Record delete_env : Type := DeleteEnv {
  del_exists : outcome bool;
  del_unlink : outcome unit;
}.

(** The [try] block of [delete_file]: whether the cache is invalidated,
    and how the block ends. *)
Definition unlink_file (env : delete_env) : bool * outcome unit :=
  match del_exists env with
  | Ret true =>
      match del_unlink env with
      | Ret _ => (true, Ret tt)
      | Raise e => (false, Raise e)
      | Cancel => (false, Cancel)
      end
  | Ret false => (true, Ret tt)
  | Raise e => (false, Raise e)
  | Cancel => (false, Cancel)
  end.

(** [DELETE /files/{msg_id}].  [store] is [message_store.get_file_by_msg_id]
    of the processor ([None] before [init]); it answers the stored path of
    the message's file, if any. *)
Definition delete_file (store : option (string → option string))
  (msg_id : string) (env : delete_env) (c : cache)
  : cache * outcome response :=
  match store with
  | None => (c, Raise "Processor not initialized")
  | Some get_file_by_msg_id =>
      match get_file_by_msg_id msg_id with
      | None => (c, Ret (HttpError 404 "File not found"))
      | Some _ =>
          let '(invalidate, r) := unlink_file env in
          let c' := if invalidate then invalidate_downloads_cache c else c in
          match r with
          | Ret _ => (c', Ret (DeletedFile msg_id))
          | Raise e => (c', Ret (HttpError 500 ("Delete failed: " +:+ e)))
          | Cancel => (c', Cancel)
          end
      end
  end.

(** Newest first. *)
Definition newer (a b : file_entry) : Prop :=
  (fe_modified b <= fe_modified a)%Q.

(** Every entry is at least as new as those after it. *)
Fixpoint newest_first (files : list file_entry) : Prop :=
  match files with
  | [] => True
  | f :: files' => Forall (newer f) files' ∧ newest_first files'
  end.

(** A listing as a scan produces it: newest first, no hidden file. *)
Definition well_formed (files : list file_entry) : Prop :=
  newest_first files ∧ Forall (λ f, hidden (fe_name f) = false) files.

(** Every cached listing is well formed. *)
Definition cache_ok (c : cache) : Prop :=
  ∀ m include_subdirs files,
    downloads_cache c = Some m → m !! include_subdirs = Some files →
    well_formed files.

End Files.

(** * The uptime text of [src/plugins/webui.py] *)

Module WebUI.

(** [_format_uptime(seconds)]; [//] and [%] are floor division and its
    remainder. *)
Definition _format_uptime (seconds : Z) : string :=
  if bool_decide (seconds < 60)%Z then pretty seconds +:+ "秒"
  else if bool_decide (seconds < 3600)%Z then
    pretty (seconds `div` 60)%Z +:+ "分" +:+ pretty (seconds `mod` 60)%Z
      +:+ "秒"
  else
    let hours := (seconds `div` 3600)%Z in
    let minutes := ((seconds `mod` 3600) `div` 60)%Z in
    pretty hours +:+ "小时" +:+ pretty minutes +:+ "分".

End WebUI.

(** * Properties *)

(** ** Sets *)

Lemma set_add_union k s : Py.set_add k s = {[ k ]} ∪ s.
Proof.
  apply set_eq. intros x. destruct s as [m]. unfold Py.set_add. simpl.
  rewrite elem_of_union, elem_of_singleton.
  unfold elem_of, gset_elem_of, mapset_elem_of. simpl.
  destruct (decide (x = k)) as [->|Hne].
  - rewrite lookup_insert_eq. naive_solver.
  - rewrite lookup_insert_ne by done. naive_solver.
Qed.

Lemma set_of_list_to_set l : Py.set_of_list l = list_to_set l.
Proof.
  unfold Py.set_of_list. induction l as [|k l IH]; simpl; [done|].
  by rewrite set_add_union, IH.
Qed.

(** ** Bounded deques and slices *)

Section Deque.

Context {A : Type}.

Implicit Types (d l : list A) (x y : A) (n : nat).

Lemma deque_append_unfold n x d :
  Py.deque_append n x d =
    if decide (n = 0) then d
    else if decide (length d < n) then d ++ [x] else drop 1 d ++ [x].
Proof.
  unfold Py.deque_append.
  destruct (Nat.eqb_spec n 0); destruct (decide (n = 0)); try done.
  destruct (Nat.ltb_spec (length d) n); case_decide; done || lia.
Qed.

Lemma deque_append_room n x d :
  length d < n → Py.deque_append n x d = d ++ [x].
Proof.
  intros Hlt. rewrite deque_append_unfold.
  destruct (decide (n = 0)) as [->|_]; [lia|].
  destruct (decide (length d < n)); [done|lia].
Qed.

Lemma deque_append_full n x d :
  0 < n → length d = n → Py.deque_append n x d = drop 1 d ++ [x].
Proof.
  intros Hpos Hlen. rewrite deque_append_unfold.
  destruct (decide (n = 0)); [lia|].
  destruct (decide (length d < n)); [lia|done].
Qed.

Lemma deque_append_length n x d :
  length d ≤ n → length (Py.deque_append n x d) ≤ n.
Proof.
  intros Hle. rewrite deque_append_unfold.
  repeat case_decide; rewrite ?length_app, ?length_drop; simpl; lia.
Qed.

Lemma deque_append_elem_of n x y d :
  y ∈ Py.deque_append n x d → y = x ∨ y ∈ d.
Proof.
  rewrite deque_append_unfold. repeat case_decide; auto.
  - rewrite elem_of_app, list_elem_of_singleton. tauto.
  - rewrite elem_of_app, list_elem_of_singleton.
    intros [Hin| ->]; auto. right. by eapply subseteq_drop.
Qed.


Lemma deque_append_NoDup n x d :
  NoDup d → x ∉ d → NoDup (Py.deque_append n x d).
Proof.
  intros Hnd Hx. rewrite deque_append_unfold. repeat case_decide; auto.
  - apply NoDup_app. split_and!; auto.
    + intros y Hy ->%list_elem_of_singleton. done.
    + apply NoDup_singleton.
  - apply NoDup_app. split_and!.
    + eapply sublist_NoDup; [|apply sublist_drop]. done.
    + intros y Hy%subseteq_drop ->%list_elem_of_singleton. done.
    + apply NoDup_singleton.
Qed.

Lemma last_n_length n l : length (Py.last_n n l) = Nat.min n (length l).
Proof. unfold Py.last_n. rewrite length_drop. lia. Qed.

Lemma last_n_all n l : length l ≤ n → Py.last_n n l = l.
Proof.
  intros Hle. unfold Py.last_n.
  replace (length l - n) with 0 by lia. done.
Qed.

Lemma deque_append_last_n n x l :
  0 < n → Py.deque_append n x (Py.last_n n l) = Py.last_n n (l ++ [x]).
Proof.
  intros Hpos. rewrite deque_append_unfold.
  destruct (decide (n = 0)); [lia|].
  rewrite last_n_length. unfold Py.last_n. rewrite length_app. simpl.
  case_decide.
  - replace (length l - n) with 0 by lia.
    replace (length l + 1 - n) with 0 by lia. done.
  - rewrite drop_drop.
    replace (length l + 1 - n) with (length l - n + 1) by lia.
    rewrite drop_app_le by lia. done.
Qed.


End Deque.

(** ** Unfolding a loop body *)

Ltac unfold_M :=
  unfold bind, ret, modify, emit, call, get, login_call in *.

Ltac crush_M :=
  unfold_M; simpl in *;
  repeat case_match; simplify_eq/=.

Lemma bind_Ret_inv {A B} (m : M A) (k : A → M B) w w' tr b :
  bind m k w = (w', tr, Ret b) →
  ∃ w1 t1 a t2, m w = (w1, t1, Ret a) ∧ k a w1 = (w', t2, Ret b)
                ∧ tr = t1 ++ t2.
Proof.
  unfold bind. destruct (m w) as [[w1 t1] [a|e|]]; [|done..].
  destruct (k a w1) as [[w2 t2] r] eqn:Hk. intros [= <- <- ->].
  by exists w1, t1, a, t2.
Qed.

(** ** What handling one message does *)

Section Handle.

Context (cfg : config).

Lemma dispatch_message_locals msg env w w' tr r :
  dispatch_message cfg msg env w = (w', tr, r) →
  locals w' =
    Locals (processed_order (locals w)) (processed_set (locals w))
           (foldl (λ b s, Py.deque_append sent_buffer_maxlen s b)
                  (sent_buffer (locals w)) (sent_replies tr))
           (poll_interval (locals w)) true.
Proof.
  unfold dispatch_message. intros H.
  destruct w as [? ? [] ? ?]. by crush_M.
Qed.

Lemma dispatch_message_frame msg env w w' tr r :
  dispatch_message cfg msg env w = (w', tr, r) →
  is_logged_in w' = is_logged_in w
  ∧ listener_running w' = listener_running w
  ∧ heartbeat_running w' = heartbeat_running w
  ∧ reconnect_attempts (stability w') = reconnect_attempts (stability w)
  ∧ last_heartbeat (stability w') = last_heartbeat (stability w)
  ∧ errors (stability w') = errors (stability w).
Proof.
  unfold dispatch_message. intros H.
  destruct w as [? [] ? ? ?]. by crush_M.
Qed.

(** A dispatch that returns has called [processor.process] once, on its
    message; one that does not return has called it at most once. *)
Lemma dispatch_message_trace msg env w w' tr r :
  dispatch_message cfg msg env w = (w', tr, r) →
  recorded_keys tr = []
  ∧ Forall (λ e, message_event e = true) tr
  ∧ (dispatched tr = [msg] ∨ (dispatched tr = [] ∧ r ≠ Ret tt)).
Proof.
  unfold dispatch_message. intros H.
  crush_M; split_and!; try done; auto; repeat constructor.
Qed.

End Handle.

(** ** The four ways a message is disposed of *)

Lemma handle_message_classify cfg me w :
  handle_message cfg me w =
    match classify_in w me.1 with
    | SkipEmpty | SkipSeen => (w, [], Ret tt)
    | SkipEcho =>
        (record_key (unique_key me.1) w, [EvRecorded (unique_key me.1)], Ret tt)
    | Dispatch =>
        let '(w', tr, r) :=
          dispatch_message cfg me.1 me.2 (record_key (unique_key me.1) w) in
        (w', EvRecorded (unique_key me.1) :: tr, r)
    end.
Proof.
  unfold handle_message, classify_in, classify.
  destruct (Py.truthy (unique_key me.1)); simpl; [|done].
  unfold bind at 1. simpl.
  destruct (bool_decide _); simpl; [done|].
  unfold bind at 1. simpl. unfold bind at 1. simpl. unfold bind at 1. simpl.
  change (is_echo (message_content me.1) (record_key (unique_key me.1) w))
    with (Py.truthy (message_content me.1)
          && bool_decide (message_content me.1 ∈ sent_buffer (locals w))).
  destruct (Py.truthy (message_content me.1) && _); simpl; [done|].
  by destruct (dispatch_message _ _ _ _) as [[??]?].
Qed.

(** ** A monitor for the dedup discipline

    It reads a trace and checks that a key is recorded only when it is not
    among the last 5000 recorded keys, and that a message is dispatched
    only right after its own key was recorded. *)

Lemma monitor_from_app g t1 t2 :
  monitor_from g (t1 ++ t2) = monitor_from (monitor_from g t1) t2.
Proof. apply foldl_app. Qed.

Lemma monitor_from_seen g t :
  seen (monitor_from g t) = seen g ++ recorded_keys t.
Proof.
  revert g. induction t as [|e t IH]; intros g; simpl.
  - by rewrite app_nil_r.
  - unfold monitor_from in *. rewrite IH.
    destruct e; simpl; try done. by rewrite <-app_assoc.
Qed.




Section Tracks.

(** ** Relating the state to the trace so far *)

Context (R : world → list event → Prop).

Lemma tracks_ret {A} (a : A) : tracks R (ret a).
Proof. intros w t w' tr r [= <- <- <-]. by rewrite app_nil_r. Qed.

Lemma tracks_get : tracks R get.
Proof. intros w t w' tr r [= <- <- <-]. by rewrite app_nil_r. Qed.

Lemma tracks_bind {A B} (m : M A) (k : A → M B) :
  tracks R m → (∀ a, tracks R (k a)) → tracks R (bind m k).
Proof.
  intros Hm Hk w t w' tr r. unfold bind.
  destruct (m w) as [[w1 t1] [a|e|]] eqn:Hmw.
  - destruct (k a w1) as [[w2 t2] r2] eqn:Hkw. intros [= <- <- <-] HR.
    rewrite app_assoc. eapply Hk; [done|]. by eapply Hm.
  - intros [= <- <- <-] HR. by eapply Hm.
  - intros [= <- <- <-] HR. by eapply Hm.
Qed.

Lemma tracks_modify f :
  (∀ w t, R w t → R (f w) t) → tracks R (modify f).
Proof. intros Hf w t w' tr r [= <- <- <-]. rewrite app_nil_r. auto. Qed.

Lemma tracks_emit e :
  (∀ w t, R w t → R w (t ++ [e])) → tracks R (emit e).
Proof. intros He w t w' tr r [= <- <- <-]. auto. Qed.

Lemma tracks_call {A} ev (o : outcome A) :
  (∀ w t, R w t → R w (t ++ [ev o])) → tracks R (call ev o).
Proof. intros He w t w' tr r [= <- <- <-]. auto. Qed.

Lemma tracks_login_call ev le :
  (∀ w t, R w t → R (set_logged_in (login_state le) w)
                    (t ++ [ev (login_result le)])) →
  tracks R (login_call ev le).
Proof. intros He w t w' tr r [= <- <- <-]. auto. Qed.

Lemma tracks_get_latest o :
  (∀ w t, R w t → R w (t ++ [EvGetLatest (outcome_map (map fst) o)])) →
  tracks R (get_latest o).
Proof. intros He w t w' tr r [= <- <- <-]. auto. Qed.

Lemma tracks_for_each {A} (l : list A) body :
  (∀ x, tracks R (body x)) → tracks R (for_each l body).
Proof.
  intros Hb. induction l as [|x l IH]; simpl.
  - apply tracks_ret.
  - apply tracks_bind; auto.
Qed.

End Tracks.

(** ** The listener's invariant *)

Lemma listener_inv_bystander w w' t e :
  bystander e = true →
  processed_order (locals w') = processed_order (locals w) →
  processed_set (locals w') = processed_set (locals w) →
  sent_buffer (locals w') = sent_buffer (locals w) →
  listener_inv w t → listener_inv w' (t ++ [e]).
Proof.
  intros He Ho Hset Hsent [].
  assert (recorded_keys (t ++ [e]) = recorded_keys t) as Hr.
  { unfold recorded_keys. rewrite omap_app.
    destruct e; simpl in *; try done; by rewrite app_nil_r. }
  assert (sent_replies (t ++ [e]) = sent_replies t) as Hsr.
  { unfold sent_replies. rewrite omap_app.
    destruct e; simpl in *; try done; by rewrite app_nil_r. }
  assert (monitor (t ++ [e]) = monitor t) as Hm.
  { unfold monitor. rewrite monitor_from_app.
    destruct e; simpl in *; done. }
  split; rewrite ?Ho, ?Hset, ?Hsent, ?Hr, ?Hsr, ?Hm; done.
Qed.

Lemma listener_inv_frame w w' t :
  processed_order (locals w') = processed_order (locals w) →
  processed_set (locals w') = processed_set (locals w) →
  sent_buffer (locals w') = sent_buffer (locals w) →
  listener_inv w t → listener_inv w' t.
Proof. intros Ho Hset Hsent []. split; rewrite ?Ho, ?Hset, ?Hsent; done. Qed.

Lemma processed_order_maxlen_pos : 0 < processed_order_maxlen.
Proof. unfold processed_order_maxlen. lia. Qed.

Lemma sent_buffer_maxlen_pos : 0 < sent_buffer_maxlen.
Proof. unfold sent_buffer_maxlen. lia. Qed.

Lemma foldl_deque_append_last_n {A} n (l xs : list A) :
  0 < n →
  foldl (λ b s, Py.deque_append n s b) (Py.last_n n l) xs
  = Py.last_n n (l ++ xs).
Proof.
  intros Hn. revert l. induction xs as [|x xs IH]; intros l; simpl.
  - by rewrite app_nil_r.
  - rewrite deque_append_last_n by done. rewrite IH.
    by rewrite <-app_assoc.
Qed.

(** Recording a key that is not in [processed_set]. *)
Lemma listener_inv_record w t key :
  key ∉ processed_set (locals w) →
  listener_inv w t →
  listener_inv (record_key key w) (t ++ [EvRecorded key])
  ∧ pending (monitor (t ++ [EvRecorded key])) = true
  ∧ last (seen (monitor (t ++ [EvRecorded key]))) = Some key.
Proof.
  intros Hnew [Ho Hsent Hnd Hsub Hs].
  assert (key ∉ processed_order (locals w)) as Hnot by (intros ?%Hsub; done).
  assert (monitor (t ++ [EvRecorded key])
          = observe (monitor t) (EvRecorded key)) as Hm.
  { unfold monitor. by rewrite monitor_from_app. }
  split_and!.
  - split; simpl.
    + unfold recorded_keys. rewrite omap_app. simpl.
      rewrite Ho. apply deque_append_last_n, processed_order_maxlen_pos.
    + unfold sent_replies in *. rewrite omap_app. simpl.
      by rewrite app_nil_r.
    + by apply deque_append_NoDup.
    + rewrite set_add_union.
      intros k [->|Hk]%deque_append_elem_of; set_solver.
    + rewrite Hm. simpl. rewrite Hs. simpl. apply bool_decide_eq_true.
      unfold monitor. rewrite monitor_from_seen. simpl. by rewrite <-Ho.
  - by rewrite Hm.
  - rewrite Hm. simpl. apply last_snoc.
Qed.

Lemma classify_SkipEcho known sent msg :
  classify known sent msg = SkipEcho →
  Py.truthy (unique_key msg) = true
  ∧ (unique_key msg ∉ known)
  ∧ Py.truthy (message_content msg) = true
  ∧ message_content msg ∈ sent.
Proof.
  unfold classify. destruct (Py.truthy (unique_key msg)); simpl; [|done].
  case_bool_decide; [done|].
  destruct (Py.truthy (message_content msg)); simpl; [|done].
  case_bool_decide; done.
Qed.

Lemma classify_Dispatch known sent msg :
  classify known sent msg = Dispatch →
  Py.truthy (unique_key msg) = true
  ∧ (unique_key msg ∉ known)
  ∧ (Py.truthy (message_content msg) = false ∨ message_content msg ∉ sent).
Proof.
  unfold classify. destruct (Py.truthy (unique_key msg)); simpl; [|done].
  case_bool_decide; [done|].
  destruct (Py.truthy (message_content msg)); simpl; [|auto].
  case_bool_decide; [done|auto].
Qed.

Lemma dispatch_message_monitor cfg msg env w w' tr r :
  dispatch_message cfg msg env w = (w', tr, r) →
  ∀ g, monitor_from g tr = g
       ∨ monitor_from g tr = observe g (EvProcess msg (env_process env)).
Proof.
  unfold dispatch_message. intros H g.
  crush_M; auto.
Qed.

Lemma handle_message_tracks cfg me : tracks listener_inv (handle_message cfg me).
Proof.
  intros w t w' tr r H Hinv. rewrite handle_message_classify in H.
  destruct (classify_in w me.1) eqn:Hc; unfold classify_in in Hc.
  - simplify_eq. by rewrite app_nil_r.
  - simplify_eq. by rewrite app_nil_r.
  - simplify_eq. apply classify_SkipEcho in Hc as (_ & Hnew & _).
    by apply listener_inv_record.
  - apply classify_Dispatch in Hc as (_ & Hnew & _).
    destruct (dispatch_message _ _ _ _) as [[w2 t2] r2] eqn:Hd. simplify_eq.
    destruct (listener_inv_record w t _ Hnew Hinv)
      as ([Ho Hsent Hnd Hsub Hs] & Hpend & Hlast).
    pose proof (dispatch_message_locals _ _ _ _ _ _ _ Hd) as Hloc.
    pose proof (dispatch_message_trace _ _ _ _ _ _ _ Hd) as (Hrec & _ & _).
    pose proof (dispatch_message_monitor _ _ _ _ _ _ _ Hd) as Hmon.
    change (t ++ EvRecorded (unique_key me.1) :: t2)
      with (t ++ [EvRecorded (unique_key me.1)] ++ t2).
    rewrite app_assoc.
    set (t1 := t ++ [EvRecorded (unique_key me.1)]) in *.
    simpl in Ho, Hsent, Hnd, Hsub.
    split; rewrite ?Hloc; simpl.
    + rewrite Ho. unfold recorded_keys in *.
      by rewrite (omap_app _ t1), Hrec, app_nil_r.
    + rewrite Hsent. unfold sent_replies. rewrite omap_app.
      apply foldl_deque_append_last_n, sent_buffer_maxlen_pos.
    + done.
    + done.
    + unfold monitor in *. rewrite monitor_from_app.
      destruct (Hmon (monitor_from (Ghost [] false true) t1)) as [->| ->];
        [done|].
      simpl. rewrite Hs, Hpend, Hlast. simpl. by apply bool_decide_eq_true.
Qed.

Lemma resync_tracks : tracks listener_inv resync.
Proof.
  intros w t w' tr r H Hinv. unfold resync in H. unfold_M. simpl in H.
  destruct (resync_due (locals w)); simplify_eq.
  - eapply (listener_inv_bystander _ _ _ EvResync); [done..| |done|].
    { done. }
    destruct Hinv. split; simpl; try done.
    intros k Hk. rewrite set_of_list_to_set. by apply elem_of_list_to_set.
  - by rewrite app_nil_r.
Qed.

Ltac frame_inv :=
  let w := fresh "w" in
  let t := fresh "t" in
  let H := fresh "H" in
  intros w t H;
  first
    [ by (eapply (listener_inv_frame w); [..|exact H])
    | by (eapply (listener_inv_bystander w); [..|exact H]) ].

Lemma listener_try_tracks cfg env : tracks listener_inv (listener_try cfg env).
Proof.
  unfold listener_try, restore_login, poll_messages, adjust_interval.
  repeat first
    [ apply resync_tracks
    | apply handle_message_tracks
    | apply tracks_for_each; intros ?
    | apply tracks_get
    | apply tracks_ret
    | apply tracks_bind; [|intros ?]
    | apply tracks_modify; frame_inv
    | apply tracks_emit; frame_inv
    | apply tracks_login_call; frame_inv
    | apply tracks_get_latest; frame_inv
    | case_match ].
Qed.

Lemma heartbeat_try_tracks cfg env : tracks listener_inv (heartbeat_try cfg env).
Proof.
  unfold heartbeat_try.
  repeat first
    [ apply tracks_get
    | apply tracks_ret
    | apply tracks_bind; [|intros ?]
    | apply tracks_modify; frame_inv
    | apply tracks_emit; frame_inv
    | apply tracks_call; frame_inv
    | apply tracks_login_call; frame_inv
    | case_match ].
Qed.

Lemma do_step_inv cfg st w w' tr s t :
  do_step cfg st w = (w', tr, s) →
  listener_inv w t → listener_inv w' (t ++ tr).
Proof.
  destruct st as [env|env|b]; simpl.
  - unfold listener_iteration.
    destruct (listener_running w); simpl;
      [|intros [= <- <- <-]; by rewrite app_nil_r].
    destruct (listener_try cfg env w) as [[w1 t1] r] eqn:Htry.
    intros H Hinv.
    pose proof (listener_try_tracks cfg env _ _ _ _ _ Htry Hinv) as H1.
    destruct r; simplify_eq; [done| |].
    + rewrite app_assoc.
      eapply (listener_inv_bystander w1); [done..|exact H1].
    + by eapply (listener_inv_frame w1); [..|exact H1].
  - unfold heartbeat_iteration.
    destruct (heartbeat_running w); simpl;
      [|intros [= <- <- <-]; by rewrite app_nil_r].
    destruct (heartbeat_try cfg env w) as [[w1 t1] r] eqn:Htry.
    intros H Hinv.
    pose proof (heartbeat_try_tracks cfg env _ _ _ _ _ Htry Hinv) as H1.
    destruct r; simplify_eq; [done| |].
    + by eapply (listener_inv_frame w1); [..|exact H1].
    + by eapply (listener_inv_frame w1); [..|exact H1].
  - intros [= <- <- <-] Hinv. rewrite app_nil_r.
    by eapply (listener_inv_frame w); [..|exact Hinv].
Qed.

(** ** Runs *)

Lemma run_cons cfg w st steps :
  run cfg w (st :: steps) =
    let '(w1, tr, s) := do_step cfg st w in
    let '(w2, recs) := run cfg w1 steps in
    (w2, StepRecord st w tr s w1 :: recs).
Proof. done. Qed.

Lemma run_app cfg w steps1 steps2 :
  run cfg w (steps1 ++ steps2) =
    let '(w1, recs1) := run cfg w steps1 in
    let '(w2, recs2) := run cfg w1 steps2 in
    (w2, recs1 ++ recs2).
Proof.
  revert w. induction steps1 as [|st steps1 IH]; intros w; simpl.
  - by destruct (run cfg w steps2).
  - destruct (do_step cfg st w) as [[w1 tr] s].
    rewrite IH. destruct (run cfg w1 steps1) as [w2 recs1].
    by destruct (run cfg w2 steps2).
Qed.


(** Every record of a run is a step taken from the state the steps before
    it led to. *)
Lemma run_record cfg w steps w' recs i rec :
  run cfg w steps = (w', recs) →
  recs !! i = Some rec →
  ∃ steps1 steps2 recs1 recs2,
    steps = steps1 ++ rec_step rec :: steps2
    ∧ recs = recs1 ++ rec :: recs2
    ∧ length recs1 = i
    ∧ run cfg w steps1 = (rec_before rec, recs1)
    ∧ do_step cfg (rec_step rec) (rec_before rec)
      = (rec_after rec, rec_trace rec, rec_status rec)
    ∧ run cfg (rec_after rec) steps2 = (w', recs2).
Proof.
  revert w recs i. induction steps as [|st steps IH]; intros w recs i; simpl.
  - intros [= <- <-]. done.
  - destruct (do_step cfg st w) as [[w1 tr] s] eqn:Hstep.
    destruct (run cfg w1 steps) as [w2 recs'] eqn:Hrun.
    intros [= <- <-]. destruct i as [|i]; simpl.
    + intros [= <-]. exists [], steps, [], recs'. by simpl.
    + intros Hi.
      destruct (IH _ _ _ Hrun Hi)
        as (s1 & s2 & r1 & r2 & -> & -> & Hlen & Hr1 & Hd & Hr2).
      exists (st :: s1), s2, (StepRecord st w tr s w1 :: r1), r2.
      simpl. rewrite Hstep, Hr1. by rewrite Hlen.
Qed.

Lemma run_inv cfg steps : ∀ w t w' recs,
  run cfg w steps = (w', recs) →
  listener_inv w t → listener_inv w' (t ++ trace_of recs).
Proof.
  induction steps as [|st steps IH]; intros w t w' recs; simpl.
  - intros [= <- <-]. by rewrite app_nil_r.
  - destruct (do_step cfg st w) as [[w1 tr] s] eqn:Hstep.
    destruct (run cfg w1 steps) as [w2 recs'] eqn:Hrun.
    intros [= <- <-] Hinv. unfold trace_of. simpl. rewrite app_assoc.
    eapply IH; [done|]. by eapply do_step_inv.
Qed.

Lemma initial_inv logged stab : listener_inv (initial_world logged stab) [].
Proof. split; try reflexivity; [apply NoDup_nil_2|set_solver]. Qed.

Lemma reachable_inv cfg logged stab steps w recs :
  run cfg (initial_world logged stab) steps = (w, recs) →
  listener_inv w (trace_of recs).
Proof. intros H. by eapply (run_inv _ _ _ []), initial_inv. Qed.

(** ** Dedup idempotence *)




(** ** Bounded buffers *)

Lemma listener_inv_bounded w t : listener_inv w t → bounded w.
Proof.
  intros [Ho Hs _ _ _]. unfold bounded.
  rewrite Ho, Hs, !last_n_length. lia.
Qed.

(** C5: at every iteration boundary of every run, [processed_order] holds
    at most 5000 keys and [sent_buffer] at most 40 replies; an append to a
    full buffer drops its oldest element. *)
Theorem bounded_memory cfg logged stab steps w recs :
  run cfg (initial_world logged stab) steps = (w, recs) →
  bounded w
  ∧ Forall (λ rec, bounded (rec_after rec)) recs
  ∧ (∀ key,
       length (processed_order (locals w)) = processed_order_maxlen →
       processed_order (locals (record_key key w))
       = drop 1 (processed_order (locals w)) ++ [key])
  ∧ (∀ reply,
       length (sent_buffer (locals w)) = sent_buffer_maxlen →
       sent_buffer (locals (push_sent reply w))
       = drop 1 (sent_buffer (locals w)) ++ [reply]).
Proof.
  intros Hrun. split_and!.
  - eapply listener_inv_bounded, reachable_inv, Hrun.
  - apply Forall_lookup_2. intros i rec Hi.
    destruct (run_record _ _ _ _ _ _ _ Hrun Hi)
      as (s1 & s2 & r1 & r2 & _ & _ & _ & Hr1 & Hd & _).
    pose proof (reachable_inv _ _ _ _ _ _ Hr1) as Hinv.
    eapply listener_inv_bounded, do_step_inv; done.
  - intros key Hlen. simpl.
    apply deque_append_full; [apply processed_order_maxlen_pos|done].
  - intros reply Hlen. simpl.
    apply deque_append_full; [apply sent_buffer_maxlen_pos|done].
Qed.

Lemma bounded_memory_witness :
  bounded (run Scenario.cfg Scenario.start
             [Scenario.poll [(Scenario.named "2" "/ping", Scenario.replying "pong");
                             (Scenario.named "1" "hello", Scenario.quiet)]]).1.
Proof.
  destruct (run Scenario.cfg Scenario.start _) as [w recs] eqn:Hrun.
  exact (proj1 (bounded_memory _ _ _ _ _ _ Hrun)).
Defined.

(** ** Echo suppression *)



(** ** Taking an iteration apart *)

Lemma bind_unit_Ret_inv {A} (m : M A) (k : M unit) w w' tr :
  bind m (λ _, k) w = (w', tr, Ret tt) →
  ∃ w1 t1 a t2, m w = (w1, t1, Ret a) ∧ k w1 = (w', t2, Ret tt)
                ∧ tr = t1 ++ t2.
Proof. apply bind_Ret_inv. Qed.

Lemma bind_inv {A B} (m : M A) (k : A → M B) w w' tr r :
  bind m k w = (w', tr, r) →
  (∃ w1 t1 a t2, m w = (w1, t1, Ret a) ∧ k a w1 = (w', t2, r) ∧ tr = t1 ++ t2)
  ∨ (∃ e, m w = (w', tr, Raise e) ∧ r = Raise e)
  ∨ (m w = (w', tr, Cancel) ∧ r = Cancel).
Proof.
  unfold bind. destruct (m w) as [[w1 t1] [a|e|]].
  - destruct (k a w1) as [[w2 t2] r2] eqn:Hk. intros [= <- <- <-].
    left. by exists w1, t1, a, t2.
  - intros [= <- <- <-]. right. left. by exists e.
  - intros [= <- <- <-]. by right; right.
Qed.

Lemma listener_try_Ret_inv cfg env w w' tr :
  listener_try cfg env w = (w', tr, Ret tt) →
  ∃ w1 t1 w2 t2,
    restore_login env (set_had_messages false w) = (w1, t1, Ret tt)
    ∧ poll_messages cfg env w1 = (w2, t2, Ret tt)
    ∧ w' = set_poll_interval (next_interval (locals w2)) w2
    ∧ tr = t1 ++ t2.
Proof.
  unfold listener_try. intros H.
  apply bind_Ret_inv in H as (w0 & t0 & [] & t0' & H0 & H & ->).
  unfold modify in H0. injection H0 as <- <-.
  apply bind_Ret_inv in H as (w1 & t1 & [] & t1' & H1 & H & ->).
  apply bind_Ret_inv in H as (w2 & t2 & [] & t2' & H2 & H & ->).
  unfold adjust_interval in H. unfold_M. injection H as <- <-.
  exists w1, t1, w2, t2. by rewrite app_nil_r.
Qed.

Lemma poll_messages_Ret_inv cfg env w w' tr :
  poll_messages cfg env w = (w', tr, Ret tt) →
  (is_logged_in w = false ∧ w' = w ∧ tr = [])
  ∨ (is_logged_in w = true
     ∧ ∃ msgs w1 t1 t2,
         env_get_latest env = Ret msgs
         ∧ for_each (rev msgs) (handle_message cfg) w = (w1, t1, Ret tt)
         ∧ resync w1 = (w', t2, Ret tt)
         ∧ tr = EvGetLatest (Ret (map fst msgs)) :: t1 ++ t2).
Proof.
  unfold poll_messages. intros H.
  apply bind_Ret_inv in H as (w0 & t0 & wg & t0' & H0 & H & ->).
  unfold get in H0. injection H0 as <- <- <-.
  destruct (is_logged_in w) eqn:Hlog.
  - right. split; [done|].
    apply bind_Ret_inv in H as (w1 & t1 & msgs & t1' & H1 & H & ->).
    unfold get_latest in H1. injection H1 as <- <- Hfetch.
    apply bind_Ret_inv in H as (w2 & t2 & [] & t2' & H2 & H & ->).
    exists msgs, w2, t2, t2'. rewrite Hfetch. by simpl.
  - left. unfold ret in H. by injection H as <- <-.
Qed.

(** The connectivity check touches the login flag and the reconnect
    counter, nothing else, and calls nothing but [check_login_status]. *)
Lemma restore_login_spec env w w' tr r :
  restore_login env w = (w', tr, r) →
  locals w' = locals w
  ∧ errors (stability w') = errors (stability w)
  ∧ listener_running w' = listener_running w
  ∧ heartbeat_running w' = heartbeat_running w
  ∧ recorded_keys tr = []
  ∧ dispatched tr = []
  ∧ sent_replies tr = []
  ∧ Forall (λ e, login_event e = true) tr
  ∧ (is_logged_in w = true → w' = w ∧ tr = []).
Proof.
  unfold restore_login. intros H. destruct w as [[] [] [] ? ?];
    crush_M; split_and!; try done; repeat constructor.
Qed.

Lemma recorded_keys_app t1 t2 :
  recorded_keys (t1 ++ t2) = recorded_keys t1 ++ recorded_keys t2.
Proof. apply omap_app. Qed.

Lemma dispatched_app t1 t2 :
  dispatched (t1 ++ t2) = dispatched t1 ++ dispatched t2.
Proof. apply omap_app. Qed.

Lemma sent_replies_app t1 t2 :
  sent_replies (t1 ++ t2) = sent_replies t1 ++ sent_replies t2.
Proof. apply omap_app. Qed.

Lemma recorded_keys_cons_recorded k t :
  recorded_keys (EvRecorded k :: t) = k :: recorded_keys t.
Proof. done. Qed.


(** ** What the message loop does *)

Lemma loop_rel_start w0 : loop_rel w0 w0 [].
Proof. split; try done. simpl. set_solver. Qed.

Lemma handle_message_loop_rel cfg me w0 :
  tracks (loop_rel w0) (handle_message cfg me).
Proof.
  intros w t w' tr r H [].
  rewrite handle_message_classify in H.
  destruct (classify_in w me.1) eqn:Hc.
  - simplify_eq. by rewrite app_nil_r.
  - simplify_eq. by rewrite app_nil_r.
  - simplify_eq. split; simpl; try done.
    + rewrite recorded_keys_app, list_to_set_app_L. simpl.
      rewrite set_add_union, loop_set0. set_solver.
    + apply Forall_app. split; [done|]. by repeat constructor.
  - destruct (dispatch_message _ _ _ _) as [[w2 t2] r2] eqn:Hd. simplify_eq.
    pose proof (dispatch_message_locals _ _ _ _ _ _ _ Hd) as Hloc.
    pose proof (dispatch_message_frame _ _ _ _ _ _ _ Hd)
      as (? & ? & ? & ? & ? & ?).
    pose proof (dispatch_message_trace _ _ _ _ _ _ _ Hd) as (Hrec & Hres & _).
    split; rewrite ?Hloc; simpl in *; try congruence.
    + rewrite recorded_keys_app, recorded_keys_cons_recorded, Hrec.
      rewrite list_to_set_app_L. simpl.
      rewrite set_add_union, loop_set0. set_solver.
    + apply Forall_app. split; [done|].
      apply Forall_cons. split; [done|]. done.
Qed.

Lemma for_each_loop_rel cfg l w w' tr r :
  for_each l (handle_message cfg) w = (w', tr, r) → loop_rel w w' tr.
Proof.
  intros H.
  eapply (tracks_for_each (loop_rel w) l _
            (λ me, handle_message_loop_rel cfg me w) w []);
    [done|apply loop_rel_start].
Qed.


Lemma adjust_interval_eq w :
  adjust_interval w
  = (set_poll_interval (next_interval (locals w)) w, [], Ret tt).
Proof. done. Qed.

Lemma resync_spec w w' tr r :
  resync w = (w', tr, r) →
  r = Ret tt
  ∧ if resync_due (locals w)
    then w' = set_processed_set (Py.set_of_list (processed_order (locals w))) w
         ∧ tr = [EvResync]
    else w' = w ∧ tr = [].
Proof.
  unfold resync. unfold_M. simpl.
  destruct (resync_due (locals w)); by intros [= <- <- <-].
Qed.

(** An iteration that fetched messages: the connectivity check returned,
    the bot is logged in, and the messages went through the loop. *)
Lemma listener_try_fetched cfg env w w' tr r ms :
  listener_try cfg env w = (w', tr, r) →
  EvGetLatest (Ret ms) ∈ tr →
  ∃ msgs w1 t1 w2 t2 r2,
    ms = map fst msgs
    ∧ env_get_latest env = Ret msgs
    ∧ restore_login env (set_had_messages false w) = (w1, t1, Ret tt)
    ∧ is_logged_in w1 = true
    ∧ for_each (rev msgs) (handle_message cfg) w1 = (w2, t2, r2)
    ∧ match r2 with
      | Ret _ =>
          ∃ w3 t3, resync w2 = (w3, t3, Ret tt)
                   ∧ w' = set_poll_interval (next_interval (locals w3)) w3
                   ∧ tr = t1 ++ EvGetLatest (Ret ms) :: t2 ++ t3
                   ∧ r = Ret tt
      | _ => w' = w2 ∧ tr = t1 ++ EvGetLatest (Ret ms) :: t2 ∧ r = r2
      end.
Proof.
  unfold listener_try. intros H Hin.
  apply bind_inv in H
    as [(w0 & t0 & [] & t0' & H0 & H & ->)|[(e & H0 & _)|[H0 _]]];
    [|done..].
  unfold modify in H0. injection H0 as <- <-. simpl in Hin.
  assert (∀ w1 t1 r1, restore_login env (set_had_messages false w)
                      = (w1, t1, r1) → ∀ o, EvGetLatest o ∉ t1) as Hno1.
  { intros w1 t1 r1 H1 o Hino.
    pose proof (restore_login_spec _ _ _ _ _ H1) as (_&_&_&_&_&_&_& Hev &_).
    rewrite Forall_forall in Hev. by apply Hev in Hino. }
  apply bind_inv in H
    as [(w1 & t1 & [] & tq & H1 & H & ->)|[(e & H1 & _)|[H1 _]]];
    [|by destruct (Hno1 _ _ _ H1 _ Hin)..].
  specialize (Hno1 _ _ _ H1).
  assert (∀ w2 t2 r2 l, for_each l (handle_message cfg) w1 = (w2, t2, r2) →
          ∀ o, EvGetLatest o ∉ t2) as Hno2.
  { intros w2 t2 r2 l Hl o Hino.
    pose proof (for_each_loop_rel _ _ _ _ _ _ Hl) as [_ _ _ _ _ _ _ Hev].
    rewrite Forall_forall in Hev. by apply Hev in Hino. }
  assert (∃ msgs w2 t2 r2,
    env_get_latest env = Ret msgs
    ∧ is_logged_in w1 = true
    ∧ for_each (rev msgs) (handle_message cfg) w1 = (w2, t2, r2)
    ∧ match r2 with
      | Ret _ =>
          ∃ w3 t3, resync w2 = (w3, t3, Ret tt)
                   ∧ w' = set_poll_interval (next_interval (locals w3)) w3
                   ∧ tq = EvGetLatest (Ret (map fst msgs)) :: t2 ++ t3
                   ∧ r = Ret tt
      | _ => w' = w2
             ∧ tq = EvGetLatest (Ret (map fst msgs)) :: t2 ∧ r = r2
      end
    ∧ (EvGetLatest (Ret ms) ∈ t1 ++ tq → ms = map fst msgs))
    as (msgs & w2 & t2 & r2 & Hfetch & Hlog & Hloop & Hcase & Hms).
  { apply bind_inv in H
      as [(wp & tp & [] & tp' & Hp & H & ->)|[(e & Hp & ->)|[Hp ->]]];
      unfold poll_messages in Hp.
    - (* the poll returned *)
      rewrite adjust_interval_eq in H. injection H as <- <- <-.
      apply bind_inv in Hp as [(wg & tg & ? & tg' & Hg & Hp & ->)|[(?&?&?)|[? ?]]];
        [|done..].
      injection Hg as <- <- <-.
      destruct (is_logged_in w1) eqn:Hlog.
      2:{ injection Hp as <- <-. simpl in Hin. rewrite !app_nil_r in Hin.
          by apply Hno1 in Hin. }
      apply bind_inv in Hp
        as [(wf & tf & msgs & tf' & Hf & Hp & ->)|[(?&?&?)|[? ?]]]; [|done..].
      unfold get_latest in Hf. injection Hf as <- <- Hfetch.
      apply bind_inv in Hp
        as [(w2 & t2 & [] & t2' & Hl & Hr & ->)|[(?&?&?)|[? ?]]]; [|done..].
      pose proof (resync_spec _ _ _ _ Hr) as [_ Hres].
      exists msgs, w2, t2, (Ret tt). rewrite Hfetch. simpl.
      split_and!; try done.
      + exists wp, t2'. by rewrite !app_nil_r.
      + rewrite !app_nil_r, elem_of_app, elem_of_cons, elem_of_app.
        intros [Hi|[Heq|[Hi|Hi]]].
        * by apply Hno1 in Hi.
        * by injection Heq.
        * by eapply Hno2 in Hi.
        * destruct (resync_due _); destruct Hres as [_ ->]; set_solver.
    - (* the poll raised *)
      apply bind_inv in Hp as [(wg & tg & ? & tg' & Hg & Hp & ->)|[(?&?&?)|[? ?]]];
        [|done..].
      injection Hg as <- <- <-.
      destruct (is_logged_in w1) eqn:Hlog; [|done].
      apply bind_inv in Hp
        as [(wf & tf & msgs & tf' & Hf & Hp & ->)|[(e' & Hf & ?)|[? ?]]].
      + unfold get_latest in Hf. injection Hf as <- <- Hfetch.
        apply bind_inv in Hp
          as [(w2 & t2 & [] & t2' & Hl & Hr & ->)|[(e' & Hl & Hre)|[? ?]]].
        * by apply resync_spec in Hr as [? _].
        * injection Hre as ->.
          exists msgs, w', tf', (Raise e'). rewrite Hfetch. simpl.
          split_and!; try done.
          rewrite elem_of_app, elem_of_cons.
          intros [Hi|[Heq|Hi]].
          -- by apply Hno1 in Hi.
          -- by injection Heq.
          -- by eapply Hno2 in Hi.
        * done.
      + unfold get_latest in Hf. injection Hf as <- <- Hfetch.
        simpl in Hin. rewrite elem_of_app, list_elem_of_singleton in Hin.
        destruct Hin as [Hi|Heq]; [by apply Hno1 in Hi|].
        rewrite Hfetch in Heq. done.
      + done.
    - (* the poll was cancelled *)
      apply bind_inv in Hp as [(wg & tg & ? & tg' & Hg & Hp & ->)|[(?&?&?)|[? ?]]];
        [|done..].
      injection Hg as <- <- <-.
      destruct (is_logged_in w1) eqn:Hlog; [|done].
      apply bind_inv in Hp
        as [(wf & tf & msgs & tf' & Hf & Hp & ->)|[(? & ? & ?)|[Hf ?]]].
      + unfold get_latest in Hf. injection Hf as <- <- Hfetch.
        apply bind_inv in Hp
          as [(w2 & t2 & [] & t2' & Hl & Hr & ->)|[(? & ? & ?)|[Hl ?]]].
        * by apply resync_spec in Hr as [? _].
        * done.
        * exists msgs, w', tf', Cancel. rewrite Hfetch. simpl.
          split_and!; try done.
          rewrite elem_of_app, elem_of_cons.
          intros [Hi|[Heq|Hi]].
          -- by apply Hno1 in Hi.
          -- by injection Heq.
          -- by eapply Hno2 in Hi.
      + done.
      + unfold get_latest in Hf. injection Hf as <- <- Hfetch.
        simpl in Hin. rewrite elem_of_app, list_elem_of_singleton in Hin.
        destruct Hin as [Hi|Heq]; [by apply Hno1 in Hi|].
        rewrite Hfetch in Heq. done. }
  specialize (Hms Hin). subst ms.
  exists msgs, w1, t1, w2, t2, r2. split_and!; try done.
  destruct r2 as [[]|e|].
  - destruct Hcase as (w3 & t3 & ? & ? & -> & ?). by exists w3, t3.
  - by destruct Hcase as (? & -> & ?).
  - by destruct Hcase as (? & -> & ?).
Qed.

Lemma resync_locals w w' tr r :
  resync w = (w', tr, r) →
  had_messages (locals w') = had_messages (locals w)
  ∧ poll_interval (locals w') = poll_interval (locals w)
  ∧ processed_order (locals w') = processed_order (locals w)
  ∧ sent_buffer (locals w') = sent_buffer (locals w)
  ∧ stability w' = stability w
  ∧ is_logged_in w' = is_logged_in w
  ∧ recorded_keys tr = [] ∧ dispatched tr = [] ∧ sent_replies tr = [].
Proof.
  intros H. apply resync_spec in H as [_ H].
  destruct (resync_due _); destruct H as [-> ->]; done.
Qed.


(** ** Skipped messages and the backoff *)



(** ** Backoff *)





Lemma heartbeat_iteration_locals cfg env w w' tr s :
  heartbeat_iteration cfg env w = (w', tr, s) → locals w' = locals w.
Proof.
  unfold heartbeat_iteration, heartbeat_try. intros H.
  destruct w as [? [] ? ? []]; crush_M; done.
Qed.

Lemma listener_iteration_completed cfg env w w' tr :
  listener_iteration cfg env w = (w', tr, Completed) →
  listener_running w = true ∧ listener_try cfg env w = (w', tr, Ret tt).
Proof.
  unfold listener_iteration. destruct (listener_running w); simpl; [|done].
  destruct (listener_try cfg env w) as [[w1 t1] [[]|e|]]; [|done..].
  by intros [= <- <-].
Qed.






(** ** The fault boundary *)

Lemma handle_message_untouched cfg me w0 :
  tracks (λ w _, untouched w0 w) (handle_message cfg me).
Proof.
  intros w t w' tr r H (He & Hl & Hh).
  pose proof (handle_message_loop_rel cfg me w w [] w' tr r H
                (loop_rel_start w)) as Hrel.
  unfold untouched.
  by rewrite (loop_errors _ _ _ Hrel), (loop_listener _ _ _ Hrel),
    (loop_heartbeat _ _ _ Hrel).
Qed.

Lemma listener_try_untouched cfg env w w' tr r :
  listener_try cfg env w = (w', tr, r) → untouched w w'.
Proof.
  intros H.
  assert (tracks (λ w1 _, untouched w w1) (listener_try cfg env)) as Ht.
  { unfold listener_try, restore_login, poll_messages, adjust_interval, resync.
    repeat first
      [ apply handle_message_untouched
      | apply tracks_for_each; intros ?
      | apply tracks_get
      | apply tracks_ret
      | apply tracks_bind; [|intros ?]
      | apply tracks_modify; by intros ?? (?&?&?)
      | apply tracks_emit; by intros ?? (?&?&?)
      | apply tracks_login_call; by intros ?? (?&?&?)
      | apply tracks_get_latest; by intros ?? (?&?&?)
      | case_match ]. }
  by apply (Ht w [] w' tr r H).
Qed.

Lemma add_error_to_last_n time error errs :
  add_error_to time error errs
  = Py.last_n errors_kept (errs ++ [ErrorEntry time error]).
Proof.
  unfold add_error_to.
  destruct (Nat.ltb_spec errors_kept (length (errs ++ [ErrorEntry time error])));
    [done|].
  by rewrite last_n_all.
Qed.

Lemma add_error_to_length time error errs :
  length (add_error_to time error errs) ≤ errors_kept.
Proof. rewrite add_error_to_last_n, last_n_length. lia. Qed.


(** C7: an exception raised anywhere in a listener iteration is caught;
    an entry for it is appended to the error ring, which keeps the last 20
    entries; the interval becomes 3.0; and the loop goes on to its sleep.
    Only cancellation stops the listener. *)
Theorem listener_fault_boundary cfg :
  (∀ env w w1 tr e,
     listener_running w = true →
     listener_try cfg env w = (w1, tr, Raise e) →
     ∃ w' tr',
       listener_iteration cfg env w = (w', tr', Failed e)
       ∧ listener_running w' = true
       ∧ poll_interval (locals w') = max_interval
       ∧ errors (stability w')
         = Py.last_n errors_kept
             (errors (stability w)
              ++ [ErrorEntry (env_error_time env) ("Listener error: " +:+ e)])
       ∧ length (errors (stability w')) ≤ errors_kept)
  ∧ (∀ logged stab steps w recs,
       run cfg (initial_world logged stab) steps = (w, recs) →
       Forall (λ rec, rec_status rec ≠ Cancelled) recs →
       listener_running w = true).
Proof.
  split.
  - intros env w w1 tr e Hrun Htry.
    unfold listener_iteration. rewrite Hrun, Htry. simpl.
    destruct (listener_try_untouched _ _ _ _ _ _ Htry) as (He & Hl & _).
    eexists _, _. split_and!; [done|by rewrite <-Hrun|done| |].
    + simpl. by rewrite add_error_to_last_n, He.
    + simpl. apply add_error_to_length.
  - intros logged stab steps.
    assert (∀ w w' recs,
      run cfg w steps = (w', recs) →
      Forall (λ rec, rec_status rec ≠ Cancelled) recs →
      listener_running w = true → listener_running w' = true) as Hgen.
    { induction steps as [|st steps IH]; intros w w' recs; simpl.
      - by intros [= <- <-].
      - destruct (do_step cfg st w) as [[w1 tr] s] eqn:Hstep.
        destruct (run cfg w1 steps) as [w2 recs'] eqn:Hr.
        intros [= <- <-] [Hs Hrest]%Forall_cons Hrun. simpl in Hs.
        eapply IH; [done|done|].
        destruct st as [env|env|b]; simpl in Hstep.
        + unfold listener_iteration in Hstep. rewrite Hrun in Hstep.
          simpl in Hstep.
          destruct (listener_try cfg env w) as [[wa ta] r] eqn:Htry.
          destruct (listener_try_untouched _ _ _ _ _ _ Htry) as (_ & Hl & _).
          destruct r; simplify_eq; simpl; congruence.
        + unfold heartbeat_iteration in Hstep.
          destruct (heartbeat_running w); simpl in Hstep; [|by simplify_eq].
          destruct (heartbeat_try cfg env w) as [[wa ta] r] eqn:Htry.
          assert (listener_running wa = listener_running w) as Hl.
          { revert Htry. unfold heartbeat_try.
            destruct w as [? [] ? ? ?]. intros Htry. by crush_M. }
          destruct r; simplify_eq; simpl; congruence.
        + by simplify_eq. }
    intros w recs Hr Hc. by eapply Hgen.
Qed.

(** The fetch raises: the iteration ends in the error ring and the loop
    goes on. *)
Lemma listener_fault_boundary_witness :
  ∃ w' tr',
    listener_iteration Scenario.cfg
      (CycleEnv Scenario.online (Raise "timeout") "2026-01-01T00:00:00")
      Scenario.start
    = (w', tr', Failed "timeout")
    ∧ listener_running w' = true
    ∧ poll_interval (locals w') = max_interval
    ∧ errors (stability w')
      = Py.last_n errors_kept
          ([] ++ [ErrorEntry "2026-01-01T00:00:00" "Listener error: timeout"])
    ∧ length (errors (stability w')) ≤ errors_kept.
Proof.
  refine (proj1 (listener_fault_boundary Scenario.cfg)
            (CycleEnv Scenario.online (Raise "timeout") "2026-01-01T00:00:00")
            Scenario.start
            (set_had_messages false Scenario.start)
            [EvGetLatest (Raise "timeout")] "timeout" _ _); by vm_compute.
Defined.

(** ** Drift of [processed_set] *)

Lemma heartbeat_iteration_events cfg env w w' tr s :
  heartbeat_iteration cfg env w = (w', tr, s) →
  ∀ ms, EvGetLatest ms ∉ tr.
Proof.
  unfold heartbeat_iteration, heartbeat_try. intros H ms Hin.
  destruct w as [? [] ? ? []]; crush_M; set_solver.
Qed.

Lemma listener_step_drift cfg env w t w' tr :
  listener_inv w t →
  listener_iteration cfg env w = (w', tr, Completed) →
  (∃ ms, EvGetLatest (Ret ms) ∈ tr) →
  let grown := processed_set (locals w) ∪ list_to_set (recorded_keys tr) in
  (EvResync ∈ tr
   ↔ length (processed_order (locals w')) + resync_slack < size grown)
  ∧ (EvResync ∈ tr →
     processed_set (locals w') = list_to_set (processed_order (locals w')))
  ∧ (EvResync ∉ tr → processed_set (locals w') = grown)
  ∧ size (processed_set (locals w') ∖ list_to_set (processed_order (locals w')))
    ≤ resync_slack.
Proof.
  intros Hinv Hit [ms Hin].
  pose proof (do_step_inv cfg (ListenerStep env) _ _ _ _ _ Hit Hinv)
    as [_ _ Hnd Hsub _].
  apply listener_iteration_completed in Hit as [_ Htry].
  destruct (listener_try_fetched _ _ _ _ _ _ _ Htry Hin)
    as (msgs & w1 & t1 & w2 & t2 & r2 & -> & Hf & H1 & Hlog & Hl & Hcase).
  pose proof (restore_login_spec _ _ _ _ _ H1)
    as (Hloc1 & _ & _ & _ & Hr1 & _ & _ & Hev1 & _).
  simpl in Hloc1.
  pose proof (for_each_loop_rel _ _ _ _ _ _ Hl) as Hrel.
  pose proof (loop_set _ _ _ Hrel) as Hset.
  pose proof (loop_events _ _ _ Hrel) as Hev2.
  rewrite Hloc1 in Hset. simpl in Hset.
  destruct r2 as [[]|e|]; [|by destruct Hcase as (_ & _ & ?)..].
  destruct Hcase as (w3 & t3 & Hr & -> & -> & _).
  pose proof (resync_locals _ _ _ _ Hr) as (_ & _ & Ho3 & _ & _ & _ & Hr3 & _).
  pose proof (resync_spec _ _ _ _ Hr) as [_ Hres].
  assert (recorded_keys (t1 ++ EvGetLatest (Ret (map fst msgs)) :: t2 ++ t3)
          = recorded_keys t2) as Hrec.
  { rewrite recorded_keys_app, Hr1. simpl.
    change (recorded_keys (EvGetLatest (Ret (map fst msgs)) :: t2 ++ t3))
      with (recorded_keys (t2 ++ t3)).
    by rewrite recorded_keys_app, Hr3, app_nil_r. }
  assert (EvResync ∈ t1 ++ EvGetLatest (Ret (map fst msgs)) :: t2 ++ t3
          ↔ EvResync ∈ t3) as Hmem.
  { rewrite elem_of_app, elem_of_cons, elem_of_app.
    rewrite Forall_forall in Hev1. rewrite Forall_forall in Hev2.
    split; [|tauto].
    intros [Hi|[?|[Hi|?]]]; try done.
    - by apply Hev1 in Hi.
    - by apply Hev2 in Hi. }
  simpl in *. rewrite Hrec, Hmem, Ho3, <-Hset.
  simpl in Hnd, Hsub. rewrite Ho3 in Hnd, Hsub.
  assert (size (list_to_set (processed_order (locals w2)) : gset string)
          = length (processed_order (locals w2))) as Hsize
    by by apply size_list_to_set.
  unfold resync_due in Hres.
  destruct (Nat.ltb_spec (length (processed_order (locals w2)) + resync_slack)
              (size (processed_set (locals w2)))) as [Hdue|Hnot].
  - destruct Hres as [-> ->]. simpl in *.
    rewrite set_of_list_to_set.
    split_and!; [split; [done|set_solver] |done |set_solver |].
    replace (list_to_set (processed_order (locals w2))
             ∖ list_to_set (processed_order (locals w2))) with (∅ : gset string)
      by set_solver.
    rewrite size_empty. lia.
  - destruct Hres as [-> ->].
    split_and!; [split; [set_solver|lia] |set_solver |done |].
    rewrite size_difference by (intros k ?%elem_of_list_to_set; by apply Hsub).
    rewrite Hsize. lia.
Qed.

(** C6 (as amended): at every iteration boundary of every run,
    [processed_set] contains every key of [processed_order]; and in a
    listener iteration that fetched messages and ran to its end, the
    resync fires exactly when the set (as grown by the keys recorded in
    the iteration) has more than [len(processed_order) + 100] keys, leaves
    [processed_set = set(processed_order)] when it fires, and otherwise the
    set exceeds [processed_order] by at most 100 keys. *)
Theorem drift_invariant cfg logged stab steps w recs :
  run cfg (initial_world logged stab) steps = (w, recs) →
  Forall drift_ok recs.
Proof.
  intros Hrun. apply Forall_lookup_2. intros i rec Hi.
  destruct (run_record _ _ _ _ _ _ _ Hrun Hi)
    as (s1 & s2 & r1 & r2 & _ & _ & _ & Hr1 & Hd & _).
  pose proof (reachable_inv _ _ _ _ _ _ Hr1) as Hinv.
  pose proof (do_step_inv _ _ _ _ _ _ _ Hd Hinv) as Hinv'.
  split.
  - intros k ?%elem_of_list_to_set. by apply (inv_subset _ _ Hinv').
  - intros Hs [ms Hin].
    destruct (rec_step rec) as [env|env|b]; simpl in Hd.
    + rewrite Hs in Hd.
      eapply listener_step_drift; [done|done|by exists ms].
    + by destruct (heartbeat_iteration_events _ _ _ _ _ _ Hd (Ret ms)).
    + injection Hd as _ Ht _. rewrite <-Ht in Hin. set_solver.
Qed.

Lemma drift_invariant_witness :
  drift_ok
    (StepRecord (Scenario.poll [(Scenario.named "1" "hello", Scenario.quiet)])
       Scenario.start
       [EvGetLatest (Ret [Scenario.named "1" "hello"]); EvRecorded "1";
        EvProcess (Scenario.named "1" "hello") (Ret None)]
       Completed
       (run Scenario.cfg Scenario.start
          [Scenario.poll [(Scenario.named "1" "hello", Scenario.quiet)]]).1).
Proof.
  set (steps := [Scenario.poll [(Scenario.named "1" "hello", Scenario.quiet)]]).
  assert (run Scenario.cfg (initial_world true fresh_stability) steps
          = ((run Scenario.cfg Scenario.start steps).1,
             (run Scenario.cfg Scenario.start steps).2)) as Hrun
    by (by vm_compute).
  pose proof (drift_invariant _ _ _ _ _ _ Hrun) as H.
  apply Forall_lookup_1 with (i := 0) (x := StepRecord (Scenario.poll [(Scenario.named "1" "hello", Scenario.quiet)])
       Scenario.start
       [EvGetLatest (Ret [Scenario.named "1" "hello"]); EvRecorded "1";
        EvProcess (Scenario.named "1" "hello") (Ret None)]
       Completed
       (run Scenario.cfg Scenario.start steps).1) in H; [exact H|].
  by vm_compute.
Defined.

(** C6 (as stated) fails at the boundary of an iteration that raises:
    after 5100 keys (425 polls of 12) the set exceeds the deque by exactly
    100; in the next poll one more key is recorded and
    [processor.process] raises, so the resync test is skipped and the
    iteration ends with 5101 keys in the set against 5000 in the deque. *)
Lemma drift_invariant_counterexample :
  let '(w, recs) :=
    run Scenario.cfg Scenario.start
      (Scenario.flood 425 12
       ++ [Scenario.poll [(Scenario.named "x" "hi", Scenario.failing)]]) in
  forallb (λ e, negb (is_resync e)) (trace_of recs) = true
  ∧ Nat.ltb (length (processed_order (locals w)) + resync_slack)
            (size (processed_set (locals w))) = true
  ∧ Nat.ltb resync_slack
      (size (processed_set (locals w)
             ∖ Py.set_of_list (processed_order (locals w)))) = true.
Proof. vm_compute. done. Qed.

(** ** Reconnecting *)

Lemma detections_app t1 t2 : detections (t1 ++ t2) = detections t1 + detections t2.
Proof. unfold detections. by rewrite List.filter_app, length_app. Qed.

Lemma resets_app t1 t2 : resets (t1 ++ t2) = resets t1 + resets t2.
Proof. unfold resets. by rewrite List.filter_app, length_app. Qed.

(** One heartbeat iteration. *)
Lemma heartbeat_iteration_spec cfg env w w' tr s :
  heartbeat_iteration cfg env w = (w', tr, s) →
  detections tr ≤ 1
  ∧ resets tr = 0
  ∧ reconnect_attempts (stability w')
    = (reconnect_attempts (stability w) + Z.of_nat (detections tr))%Z
  ∧ (reconnects tr = true →
     detections tr = 1
     ∧ (reconnect_attempts (stability w) + 1 ≤ max_reconnect_attempts cfg)%Z)
  ∧ (detections tr = 1 →
     (max_reconnect_attempts cfg < reconnect_attempts (stability w) + 1)%Z →
     reconnects tr = false
     ∧ s = Completed
     ∧ is_logged_in w' = false
     ∧ errors (stability w')
       = add_error_to (hb_error_time env) (max_attempts_message cfg)
           (errors (stability w))).
Proof.
  unfold heartbeat_iteration, heartbeat_try. intros H.
  destruct w as [? [] ? ? []].
  all: crush_M.
  all: unfold detections, resets, reconnects; simpl.
  all: repeat case_bool_decide; simpl.
  all: split_and!; try done; try lia; intros; try done; try lia.
Qed.

Lemma message_events_quiet t :
  Forall (λ e, message_event e = true) t → detections t = 0 ∧ resets t = 0.
Proof.
  unfold detections, resets.
  induction 1 as [|e t He _ [IH1 IH2]]; [done|].
  destruct e; simpl in *; try done.
Qed.

Lemma counter_rel_event a d r w t e :
  is_detection e = false → is_reset e = false →
  counter_rel a d r w t → counter_rel a d r w (t ++ [e]).
Proof.
  intros Hd Hr (? & ? & ?). unfold counter_rel.
  rewrite detections_app, resets_app. unfold detections, resets in *. simpl.
  rewrite Hd, Hr. simpl. split_and!; [done|lia..].
Qed.

Lemma handle_message_counter cfg me a d r :
  tracks (counter_rel a d r) (handle_message cfg me).
Proof.
  intros w t w' tr res H (Ha & Hd & Hr).
  pose proof (handle_message_loop_rel cfg me w w [] w' tr res H
                (loop_rel_start w)) as Hrel.
  destruct (message_events_quiet _ (loop_events _ _ _ Hrel)) as [Hd' Hr'].
  simpl in Hd', Hr'. unfold counter_rel. rewrite detections_app, resets_app, Hd', Hr'.
  rewrite (loop_attempts _ _ _ Hrel). split_and!; [done|lia..].
Qed.

Lemma poll_messages_counter cfg env a d r :
  tracks (counter_rel a d r) (poll_messages cfg env >> adjust_interval).
Proof.
  unfold poll_messages, adjust_interval, resync.
  repeat first
    [ apply handle_message_counter
    | apply tracks_for_each; intros ?
    | apply tracks_get
    | apply tracks_ret
    | apply tracks_bind; [|intros ?]
    | apply tracks_modify; by intros ?? (?&?&?)
    | apply tracks_emit; intros ???; by apply counter_rel_event
    | apply tracks_get_latest; intros ???; by apply counter_rel_event
    | case_match ].
Qed.

Lemma restore_login_counter env w w1 t1 r1 :
  restore_login env w = (w1, t1, r1) →
  detections t1 = 0
  ∧ ((resets t1 = 0
      ∧ reconnect_attempts (stability w1) = reconnect_attempts (stability w))
     ∨ (resets t1 = 1
        ∧ reconnect_attempts (stability w1) = 0%Z
        ∧ is_logged_in w = false
        ∧ login_state (env_check_login env) = true
        ∧ login_result (env_check_login env) = Ret tt
        ∧ is_logged_in w1 = true)).
Proof.
  unfold restore_login. intros H. destruct w as [[] [] ? ? ?].
  all: crush_M; unfold detections, resets; simpl; split; try done; auto.
  right. by match goal with a : () |- _ => destruct a end.
Qed.

(** One listener iteration: the counter is kept, or reset to 0 by the
    connectivity check seeing the login restored. *)
Lemma listener_iteration_counter cfg env w w' tr s :
  listener_iteration cfg env w = (w', tr, s) →
  detections tr = 0
  ∧ ((resets tr = 0
      ∧ reconnect_attempts (stability w') = reconnect_attempts (stability w))
     ∨ (resets tr = 1
        ∧ reconnect_attempts (stability w') = 0%Z
        ∧ is_logged_in w = false
        ∧ login_state (env_check_login env) = true
        ∧ login_result (env_check_login env) = Ret tt)).
Proof.
  unfold listener_iteration.
  destruct (listener_running w); simpl; [|intros [= <- <- <-]; auto].
  destruct (listener_try cfg env w) as [[w1 t1] r] eqn:Htry.
  assert (detections t1 = 0
    ∧ ((resets t1 = 0
        ∧ reconnect_attempts (stability w1) = reconnect_attempts (stability w))
       ∨ (resets t1 = 1
          ∧ reconnect_attempts (stability w1) = 0%Z
          ∧ is_logged_in w = false
          ∧ login_state (env_check_login env) = true
          ∧ login_result (env_check_login env) = Ret tt))) as Hcore.
  { unfold listener_try in Htry.
    apply bind_inv in Htry
      as [(w0 & t0 & [] & t0' & H0 & Htry & ->)|[(e & H0 & _)|[H0 _]]];
      [|done..].
    injection H0 as <- <-. simpl.
    apply bind_inv in Htry
      as [(wa & ta & [] & tb & Ha & Hb & ->)|[(e & Ha & _)|[Ha _]]].
    - destruct (restore_login_counter _ _ _ _ _ Ha) as [Hd Hcase].
      simpl in Hcase.
      destruct (poll_messages_counter cfg env
                  (reconnect_attempts (stability wa)) (detections ta)
                  (resets ta) wa ta w1 tb r Hb) as (Hx & Hy & Hz); [done|].
      rewrite Hx, Hy, Hz. split; [done|].
      destruct Hcase as [?|(?&?&?&?&?&?)]; [by left|right; by split_and!].
    - destruct (restore_login_counter _ _ _ _ _ Ha) as [Hd Hcase].
      simpl in Hcase. split; [done|].
      destruct Hcase as [?|(?&?&?&?&?&?)]; [by left|right; by split_and!].
    - destruct (restore_login_counter _ _ _ _ _ Ha) as [Hd Hcase].
      simpl in Hcase. split; [done|].
      destruct Hcase as [?|(?&?&?&?&?&?)]; [by left|right; by split_and!]. }
  destruct r as [[]|e|]; intros [= <- <- <-]; try done.
  rewrite detections_app, resets_app.
  assert (detections [EvPrint ("[Listener] " +:+ "Listener error: " +:+ e)] = 0)
    as -> by done.
  assert (resets [EvPrint ("[Listener] " +:+ "Listener error: " +:+ e)] = 0)
    as ->.
  { done. }
  rewrite !Nat.add_0_r. done.
Qed.

(** A step that logs no reset adds its detections to the counter. *)
Lemma do_step_counter cfg st w w' tr s :
  do_step cfg st w = (w', tr, s) →
  resets tr = 0 →
  reconnect_attempts (stability w')
  = (reconnect_attempts (stability w) + Z.of_nat (detections tr))%Z.
Proof.
  destruct st as [env|env|b]; simpl; intros H Hr.
  - destruct (listener_iteration_counter _ _ _ _ _ _ H)
      as [-> [[_ ->]|[? _]]]; lia.
  - by destruct (heartbeat_iteration_spec _ _ _ _ _ _ H) as (_ & _ & -> & _).
  - injection H as <- <- _. simpl. unfold detections. simpl. lia.
Qed.

Lemma trace_of_cons rec recs :
  trace_of (rec :: recs) = rec_trace rec ++ trace_of recs.
Proof. done. Qed.

Lemma run_counter cfg steps : ∀ w w' recs,
  run cfg w steps = (w', recs) →
  resets (trace_of recs) = 0 →
  reconnect_attempts (stability w')
  = (reconnect_attempts (stability w)
     + Z.of_nat (detections (trace_of recs)))%Z.
Proof.
  induction steps as [|st steps IH]; intros w w' recs; simpl.
  - intros [= <- <-] _. unfold detections. simpl. lia.
  - destruct (do_step cfg st w) as [[w1 tr] s] eqn:Hstep.
    destruct (run cfg w1 steps) as [w2 recs'] eqn:Hrun.
    intros [= <- <-]. rewrite trace_of_cons, resets_app, detections_app.
    simpl. intros Hr.
    rewrite (IH _ _ _ Hrun) by lia.
    rewrite (do_step_counter _ _ _ _ _ _ Hstep) by lia. lia.
Qed.

(** C10: a heartbeat iteration adds one to [reconnect_attempts] when it
    detects a logout and otherwise leaves it alone, whatever its own
    reconnect attempt achieves (also when it succeeds); the only step that
    lowers the counter is a listener iteration whose connectivity check
    finds the login restored, which sets it to 0; so over any stretch
    without such a reset the counter grows by the number of logout
    detections, across episodes. *)
Theorem heartbeat_reconnect_keeps_counter cfg :
  (∀ env w w' tr s,
     heartbeat_iteration cfg env w = (w', tr, s) →
     reconnect_attempts (stability w')
     = (reconnect_attempts (stability w) + Z.of_nat (detections tr))%Z
     ∧ detections tr ≤ 1)
  ∧ (∀ st w w' tr s,
       do_step cfg st w = (w', tr, s) →
       reconnect_attempts (stability w')
       ≠ (reconnect_attempts (stability w) + Z.of_nat (detections tr))%Z →
       reconnect_attempts (stability w') = 0%Z
       ∧ resets tr = 1
       ∧ ∃ env, st = ListenerStep env
                ∧ is_logged_in w = false
                ∧ login_state (env_check_login env) = true
                ∧ login_result (env_check_login env) = Ret tt)
  ∧ (∀ steps w w' recs,
       run cfg w steps = (w', recs) →
       resets (trace_of recs) = 0 →
       reconnect_attempts (stability w')
       = (reconnect_attempts (stability w)
          + Z.of_nat (detections (trace_of recs)))%Z).
Proof.
  split_and!.
  - intros env w w' tr s H.
    by destruct (heartbeat_iteration_spec _ _ _ _ _ _ H) as (? & _ & ? & _).
  - intros st w w' tr s H Hne.
    destruct st as [env|env|b]; simpl in H.
    + destruct (listener_iteration_counter _ _ _ _ _ _ H)
        as [Hd [[_ Heq]|(? & ? & ? & ? & ?)]].
      * rewrite Hd in Hne. simpl in Hne. lia.
      * split_and!; [done..|]. by exists env.
    + destruct (heartbeat_iteration_spec _ _ _ _ _ _ H) as (_ & _ & ? & _).
      done.
    + injection H as <- <- _. simpl in Hne. unfold detections in Hne.
      simpl in Hne. lia.
  - intros steps w w' recs. apply run_counter.
Qed.

(** A heartbeat iteration that detects a logout and whose reconnect
    succeeds: logged in again, counter at 1. *)
Lemma heartbeat_reconnect_keeps_counter_witness :
  let '(w', tr, s) :=
    heartbeat_iteration Scenario.cfg
      (HeartbeatEnv 30 (Ret "loginout") (Ret tt) Scenario.offline
         Scenario.online "")
      Scenario.start in
  is_logged_in w' = true ∧ reconnect_attempts (stability w') = 1%Z.
Proof.
  destruct (heartbeat_iteration _ _ _) as [[w' tr] s] eqn:H.
  pose proof (proj1 (heartbeat_reconnect_keeps_counter Scenario.cfg)
                _ _ _ _ _ H) as [Hc _].
  vm_compute in H. injection H as <- <- <-.
  split; [done|]. exact Hc.
Defined.




(** ** The scheduled-task creation route *)

Module TasksFacts.

Import Stdlib.Strings.Ascii.
Import Tasks.

(** ** The pattern is the time format *)




Example time_hm_pattern_examples :
  full_match time_hm_pattern "09:00" = true
  ∧ full_match time_hm_pattern "23:59" = true
  ∧ full_match time_hm_pattern "24:00" = false
  ∧ full_match time_hm_pattern "12:60" = false
  ∧ full_match time_hm_pattern "9:00" = false
  ∧ full_match time_hm_pattern "09:00 " = false.
Proof. by vm_compute. Qed.



End TasksFacts.

(** * Further properties of the loops *)

(** ** Stripping *)

Lemma string_app_cons c s t : String c s +:+ t = String c (s +:+ t).
Proof. done. Qed.

Lemma string_rev_app_app s1 s2 s3 :
  String.rev_app s1 s2 +:+ s3 = String.rev_app s1 (s2 +:+ s3).
Proof. revert s2. induction s1 as [|c s1 IH]; intros s2; simpl; [done|]. by rewrite IH. Qed.

Lemma string_rev_app_rev s1 s2 : String.rev_app s1 s2 = String.rev s1 +:+ s2.
Proof. unfold String.rev. by rewrite string_rev_app_app. Qed.

Lemma string_app_nil_r s : s +:+ "" = s.
Proof. induction s as [|c s IH]; [done|]. by rewrite string_app_cons, IH. Qed.

Lemma string_app_assoc s1 s2 s3 : (s1 +:+ s2) +:+ s3 = s1 +:+ (s2 +:+ s3).
Proof.
  induction s1 as [|c s1 IH]; [done|]. by rewrite !string_app_cons, IH.
Qed.

Lemma string_rev_cons c s : String.rev (String c s) = String.rev s +:+ String c "".
Proof. unfold String.rev at 1. simpl. apply string_rev_app_rev. Qed.

Lemma string_rev_app_distr s1 s2 :
  String.rev (s1 +:+ s2) = String.rev s2 +:+ String.rev s1.
Proof.
  induction s1 as [|c s1 IH].
  - by rewrite string_app_nil_r.
  - by rewrite string_app_cons, !string_rev_cons, IH, string_app_assoc.
Qed.

Lemma string_rev_involutive s : String.rev (String.rev s) = s.
Proof.
  induction s as [|c s IH]; [done|].
  by rewrite string_rev_cons, string_rev_app_distr, IH.
Qed.

Lemma lstrip_clean s : starts_clean (Py.lstrip s) = true.
Proof.
  induction s as [|c s IH]; [done|]. simpl.
  destruct (Py.is_space c) eqn:Hc; [done|]. simpl. by rewrite Hc.
Qed.

Lemma lstrip_fixed s : starts_clean s = true → Py.lstrip s = s.
Proof. destruct s as [|c s]; [done|]. simpl. by destruct (Py.is_space c). Qed.

(** What [lstrip] removes is a prefix. *)
Lemma lstrip_suffix s : ∃ p, s = p +:+ Py.lstrip s ∧ all_space p = true.
Proof.
  induction s as [|c s (p & IH & Hp)]; [by exists ""|]. simpl.
  destruct (Py.is_space c) eqn:Hc.
  - exists (String c p). split; [by rewrite string_app_cons, <-IH|].
    simpl. by rewrite Hc.
  - by exists "".
Qed.

(** What [rstrip] removes is a suffix. *)
Lemma rstrip_prefix s : ∃ q, s = Py.rstrip s +:+ q.
Proof.
  unfold Py.rstrip.
  destruct (lstrip_suffix (String.rev s)) as (p & Hp & _).
  exists (String.rev p).
  by rewrite <-string_rev_app_distr, <-Hp, string_rev_involutive.
Qed.

Lemma rstrip_idempotent s : Py.rstrip (Py.rstrip s) = Py.rstrip s.
Proof.
  unfold Py.rstrip. rewrite string_rev_involutive.
  by rewrite (lstrip_fixed _ (lstrip_clean _)).
Qed.

Lemma rstrip_clean s : starts_clean s = true → starts_clean (Py.rstrip s) = true.
Proof.
  intros Hs. destruct (rstrip_prefix s) as (q & Hq).
  destruct (Py.rstrip s) as [|c r]; [done|].
  rewrite Hq in Hs. exact Hs.
Qed.

Lemma strip_idempotent s : Py.strip (Py.strip s) = Py.strip s.
Proof.
  unfold Py.strip.
  rewrite (lstrip_fixed (Py.rstrip (Py.lstrip s)))
    by apply rstrip_clean, lstrip_clean.
  apply rstrip_idempotent.
Qed.

Lemma lstrip_all_space s : all_space s = true → Py.lstrip s = "".
Proof.
  induction s as [|c s IH]; [done|]. simpl.
  destruct (Py.is_space c); [|done]. exact IH.
Qed.

Lemma lstrip_empty s : Py.lstrip s = "" → all_space s = true.
Proof.
  induction s as [|c s IH]; [done|]. simpl.
  destruct (Py.is_space c); [|done]. exact IH.
Qed.

Lemma all_space_app s1 s2 :
  all_space (s1 +:+ s2) = all_space s1 && all_space s2.
Proof.
  induction s1 as [|c s1 IH]; [done|].
  rewrite string_app_cons. simpl. by rewrite IH, andb_assoc.
Qed.

Lemma all_space_rev s : all_space (String.rev s) = all_space s.
Proof.
  induction s as [|c s IH]; [done|].
  rewrite string_rev_cons, all_space_app, IH. simpl.
  by rewrite andb_true_r, andb_comm.
Qed.

Lemma strip_empty s : Py.strip s = "" ↔ all_space s = true.
Proof.
  unfold Py.strip, Py.rstrip. split.
  - intros H.
    assert (Py.lstrip (String.rev (Py.lstrip s)) = "") as H1.
    { rewrite <-(string_rev_involutive (Py.lstrip _)). by rewrite H. }
    apply lstrip_empty in H1. rewrite all_space_rev in H1.
    destruct (lstrip_suffix s) as (p & Hs & Hp).
    rewrite Hs, all_space_app, Hp. exact H1.
  - intros H. by rewrite (lstrip_all_space _ H).
Qed.

(** ** The error ring across the loops *)

Lemma heartbeat_iteration_errors cfg env w w' tr s :
  heartbeat_iteration cfg env w = (w', tr, s) →
  errors (stability w') = errors (stability w)
  ∨ ∃ time e,
      errors (stability w') = add_error_to time e (errors (stability w)).
Proof.
  unfold heartbeat_iteration, heartbeat_try. intros H.
  destruct w as [? [] ? ? []]; crush_M; eauto.
Qed.

Lemma listener_iteration_errors cfg env w w' tr s :
  listener_iteration cfg env w = (w', tr, s) →
  errors (stability w') = errors (stability w)
  ∨ ∃ time e,
      errors (stability w') = add_error_to time e (errors (stability w)).
Proof.
  unfold listener_iteration. destruct (listener_running w); simpl.
  - destruct (listener_try cfg env w) as [[w1 t1] [[]|e|]] eqn:Htry;
      destruct (listener_try_untouched _ _ _ _ _ _ Htry) as (He & _);
      intros [= <- <- <-]; simpl; rewrite ?He; eauto.
  - intros [= <- <- <-]. by left.
Qed.

Lemma do_step_errors cfg st w w' tr s :
  do_step cfg st w = (w', tr, s) →
  errors (stability w') = errors (stability w)
  ∨ ∃ time e,
      errors (stability w') = add_error_to time e (errors (stability w)).
Proof.
  destruct st as [env|env|b]; simpl.
  - apply listener_iteration_errors.
  - apply heartbeat_iteration_errors.
  - intros [= <- <- <-]. by left.
Qed.

Lemma run_error_ring cfg w steps w' recs :
  length (errors (stability w)) ≤ errors_kept →
  run cfg w steps = (w', recs) →
  length (errors (stability w')) ≤ errors_kept
  ∧ Forall (λ rec,
      length (errors (stability (rec_after rec))) ≤ errors_kept
      ∧ (errors (stability (rec_after rec))
         = errors (stability (rec_before rec))
         ∨ ∃ time e,
             errors (stability (rec_after rec))
             = Py.last_n errors_kept
                 (errors (stability (rec_before rec))
                  ++ [ErrorEntry time e]))) recs.
Proof.
  revert w w' recs. induction steps as [|st steps IH]; intros w w' recs Hlen.
  - intros [= <- <-]. by split.
  - rewrite run_cons.
    destruct (do_step cfg st w) as [[w1 tr] s] eqn:Hstep.
    destruct (run cfg w1 steps) as [w2 recs'] eqn:Hrun.
    intros [= <- <-].
    assert (length (errors (stability w1)) ≤ errors_kept) as Hlen1.
    { destruct (do_step_errors _ _ _ _ _ _ Hstep) as [->|(time & e & ->)];
        [done|apply add_error_to_length]. }
    destruct (IH _ _ _ Hlen1 Hrun) as [Hw Hrecs].
    split; [done|]. constructor; [|done]. simpl. split; [done|].
    destruct (do_step_errors _ _ _ _ _ _ Hstep) as [->|(time & e & ->)];
      [by left|right]. exists time, e. apply add_error_to_last_n.
Qed.

(** X1: the error ring never outgrows 20 entries.  In every run of the
    listener, the heartbeat monitor and the status routes from a state
    whose ring holds at most 20 entries, the ring holds at most 20 entries
    after every step; and a step either leaves the ring as it was or
    appends exactly one entry (dropping the oldest ones beyond 20). *)
Theorem error_ring_bounded cfg w steps w' recs :
  length (errors (stability w)) ≤ errors_kept →
  run cfg w steps = (w', recs) →
  length (errors (stability w')) ≤ errors_kept
  ∧ Forall (λ rec,
      length (errors (stability (rec_after rec))) ≤ errors_kept
      ∧ (errors (stability (rec_after rec))
         = errors (stability (rec_before rec))
         ∨ ∃ time e,
             errors (stability (rec_after rec))
             = Py.last_n errors_kept
                 (errors (stability (rec_before rec))
                  ++ [ErrorEntry time e]))) recs.
Proof. apply run_error_ring. Qed.

Lemma error_ring_bounded_witness :
  length (errors (stability
     (run Scenario.cfg Scenario.start
        [Scenario.poll [(Scenario.named "1" "hi", Scenario.failing)]]).1))
  ≤ errors_kept.
Proof.
  destruct (run Scenario.cfg Scenario.start
              [Scenario.poll [(Scenario.named "1" "hi", Scenario.failing)]])
    as [w recs] eqn:Hrun.
  refine (proj1 (error_ring_bounded Scenario.cfg Scenario.start _ w recs _ Hrun)).
  vm_compute. lia.
Defined.

(** ** The heartbeat monitor's fault boundary *)

Lemma heartbeat_try_frame cfg env w w' tr r :
  heartbeat_try cfg env w = (w', tr, r) →
  last_heartbeat (stability w') = hb_time env
  ∧ locals w' = locals w
  ∧ last_message_time (stability w') = last_message_time (stability w)
  ∧ total_messages (stability w') = total_messages (stability w)
  ∧ listener_running w' = listener_running w
  ∧ heartbeat_running w' = heartbeat_running w
  ∧ (r ≠ Ret tt → errors (stability w') = errors (stability w)).
Proof.
  unfold heartbeat_try. intros H.
  destruct w as [? [] ? ? ?]; crush_M; done.
Qed.

(** X2: an exception raised in a heartbeat iteration is caught: an entry
    "Heartbeat error: ..." is appended to the error ring (the last 20 are
    kept), the time of the heartbeat has been stamped, the listener's
    variables (the poll interval among them) are untouched, and the
    monitor goes on; only a cancellation stops the heartbeat monitor. *)
Theorem heartbeat_fault_boundary cfg :
  (∀ env w w1 tr e,
     heartbeat_running w = true →
     heartbeat_try cfg env w = (w1, tr, Raise e) →
     ∃ w',
       heartbeat_iteration cfg env w = (w', tr, Failed e)
       ∧ heartbeat_running w' = true
       ∧ errors (stability w')
         = Py.last_n errors_kept
             (errors (stability w)
              ++ [ErrorEntry (hb_error_time env) ("Heartbeat error: " +:+ e)])
       ∧ last_heartbeat (stability w') = hb_time env
       ∧ locals w' = locals w)
  ∧ (∀ w steps w' recs,
       heartbeat_running w = true →
       run cfg w steps = (w', recs) →
       Forall (λ rec, rec_status rec ≠ Cancelled) recs →
       heartbeat_running w' = true).
Proof.
  split.
  - intros env w w1 tr e Hrun Htry.
    unfold heartbeat_iteration. rewrite Hrun, Htry. simpl.
    destruct (heartbeat_try_frame _ _ _ _ _ _ Htry)
      as (Hhb & Hl & _ & _ & _ & Hr & He).
    eexists. split_and!; [done|by rewrite <-Hrun|..|done|done].
    simpl. rewrite add_error_to_last_n, He; done.
  - intros w steps. revert w.
    induction steps as [|st steps IH]; intros w w' recs Hrun.
    + by intros [= <- <-].
    + rewrite run_cons.
      destruct (do_step cfg st w) as [[w1 tr] s] eqn:Hstep.
      destruct (run cfg w1 steps) as [w2 recs'] eqn:Hrest.
      intros [= <- <-] Hall. apply Forall_cons in Hall as [Hs Hall].
      simpl in Hs. eapply IH; [|done|done].
      destruct st as [env|env|b]; simpl in Hstep.
      * unfold listener_iteration in Hstep.
        destruct (listener_running w); simpl in Hstep; [|by simplify_eq].
        destruct (listener_try cfg env w) as [[w3 t3] [[]|e|]] eqn:Htry;
          destruct (listener_try_untouched _ _ _ _ _ _ Htry) as (_ & _ & Hh);
          simplify_eq; simpl; congruence.
      * unfold heartbeat_iteration in Hstep. rewrite Hrun in Hstep.
        simpl in Hstep.
        destruct (heartbeat_try cfg env w) as [[w3 t3] [[]|e|]] eqn:Htry;
          destruct (heartbeat_try_frame _ _ _ _ _ _ Htry)
            as (_ & _ & _ & _ & _ & Hh & _);
          simplify_eq; simpl; congruence.
      * by simplify_eq.
Qed.

Lemma heartbeat_fault_boundary_witness :
  ∃ w',
    heartbeat_iteration Scenario.cfg
      (HeartbeatEnv 30 (Raise "timeout") (Ret tt) Scenario.offline
         Scenario.offline "2026-01-01T00:00:30")
      Scenario.start
    = (w', [EvSynccheck (Raise "timeout")], Failed "timeout")
    ∧ heartbeat_running w' = true
    ∧ errors (stability w')
      = Py.last_n errors_kept
          ([] ++ [ErrorEntry "2026-01-01T00:00:30" "Heartbeat error: timeout"])
    ∧ last_heartbeat (stability w') = 30%Z
    ∧ locals w' = locals Scenario.start.
Proof.
  refine (proj1 (heartbeat_fault_boundary Scenario.cfg)
            (HeartbeatEnv 30 (Raise "timeout") (Ret tt) Scenario.offline
               Scenario.offline "2026-01-01T00:00:30")
            Scenario.start _ _ _ _ _).
  - reflexivity.
  - by vm_compute.
Defined.

(** ** A logged-out heartbeat *)

Lemma heartbeat_iteration_logged_out cfg env w w' tr s :
  is_logged_in w = false →
  heartbeat_iteration cfg env w = (w', tr, s) →
  tr = []
  ∧ is_logged_in w' = false
  ∧ reconnect_attempts (stability w') = reconnect_attempts (stability w)
  ∧ errors (stability w') = errors (stability w)
  ∧ locals w' = locals w.
Proof.
  unfold heartbeat_iteration, heartbeat_try. intros Hl H.
  destruct w as [? [] ? ? []]; simpl in Hl; subst; crush_M; done.
Qed.

(** X3: the heartbeat monitor does nothing while the bot is logged out: in
    a run of heartbeat iterations only, from a logged-out state, no call
    is made (no connectivity check, no reconnect), the bot stays logged
    out, and the counter, the error ring and the listener's variables stay
    as they were.  A lost session is recovered by the listener's check or
    by a status route, never by the heartbeat monitor alone. *)
Theorem heartbeat_alone_never_recovers cfg w steps w' recs :
  is_logged_in w = false →
  Forall (λ st, is_heartbeat_step st = true) steps →
  run cfg w steps = (w', recs) →
  is_logged_in w' = false
  ∧ trace_of recs = []
  ∧ reconnect_attempts (stability w') = reconnect_attempts (stability w)
  ∧ errors (stability w') = errors (stability w)
  ∧ locals w' = locals w.
Proof.
  revert w w' recs. induction steps as [|st steps IH]; intros w w' recs Hl Hall.
  - by intros [= <- <-].
  - rewrite run_cons.
    destruct (do_step cfg st w) as [[w1 tr] s] eqn:Hstep.
    destruct (run cfg w1 steps) as [w2 recs'] eqn:Hrun.
    intros [= <- <-]. apply Forall_cons in Hall as [Hst Hall].
    destruct st as [env|env|b]; [done| |done]. simpl in Hstep.
    destruct (heartbeat_iteration_logged_out _ _ _ _ _ _ Hl Hstep)
      as (-> & Hl1 & Ha & He & Hloc).
    destruct (IH _ _ _ Hl1 Hall Hrun) as (? & Ht & ? & ? & ?).
    rewrite trace_of_cons. simpl. rewrite Ht.
    split_and!; [done|done|congruence..].
Qed.

Lemma heartbeat_alone_never_recovers_witness :
  is_logged_in
    (run Scenario.cfg (initial_world false fresh_stability)
       [Outage.logout_tick Scenario.online;
        Outage.logout_tick Scenario.online]).1 = false.
Proof.
  destruct (run Scenario.cfg (initial_world false fresh_stability) _)
    as [w recs] eqn:Hrun.
  refine (proj1 (heartbeat_alone_never_recovers _ _ _ _ _ _ _ Hrun)).
  - reflexivity.
  - by repeat constructor.
Defined.

(** ** Counting messages *)

Lemma dispatch_message_total cfg msg env w w' tr r :
  dispatch_message cfg msg env w = (w', tr, r) →
  (r = Ret tt →
   total_messages (stability w') = (total_messages (stability w) + 1)%Z
   ∧ last_message_time (stability w') = env_time env
   ∧ dispatched tr = [msg])
  ∧ (r ≠ Ret tt →
     total_messages (stability w') = total_messages (stability w)
     ∧ last_message_time (stability w') = last_message_time (stability w)
     ∧ length (dispatched tr) ≤ 1).
Proof.
  unfold dispatch_message. intros H.
  destruct w as [? [] ? ? ?]. crush_M; split; intros ?; try done;
    (split; [|split]); simpl; try done; lia.
Qed.

Lemma handle_message_total cfg me w w' tr r :
  handle_message cfg me w = (w', tr, r) →
  (r = Ret tt →
   total_messages (stability w')
   = (total_messages (stability w) + Z.of_nat (length (dispatched tr)))%Z)
  ∧ (r ≠ Ret tt →
     total_messages (stability w') = total_messages (stability w)
     ∧ length (dispatched tr) ≤ 1)
  ∧ last_heartbeat (stability w') = last_heartbeat (stability w).
Proof.
  rewrite handle_message_classify.
  destruct (classify_in w me.1).
  1-3: intros [= <- <- <-]; (split; [|split]); [intros _; simpl; lia|done|done].
  destruct (dispatch_message _ _ _ _) as [[w2 t2] r2] eqn:Hd.
  intros [= <- <- <-].
  destruct (dispatch_message_total _ _ _ _ _ _ _ Hd) as [Hok Hko].
  destruct (dispatch_message_frame _ _ _ _ _ _ _ Hd) as (_ & _ & _ & _ & Hhb & _).
  change (dispatched (EvRecorded (unique_key me.1) :: t2))
    with (dispatched t2).
  (split; [|split]).
  - intros Hr. destruct (Hok Hr) as (Ht & _ & Hdis).
    rewrite Hdis, Ht. simpl. lia.
  - intros Hr. destruct (Hko Hr) as (Ht & _ & Hdis). by rewrite Ht.
  - by rewrite Hhb.
Qed.

Lemma for_each_total cfg l : ∀ w w' tr r,
  for_each l (handle_message cfg) w = (w', tr, r) →
  (r = Ret tt →
   total_messages (stability w')
   = (total_messages (stability w) + Z.of_nat (length (dispatched tr)))%Z)
  ∧ (total_messages (stability w) ≤ total_messages (stability w')
     ≤ total_messages (stability w) + Z.of_nat (length (dispatched tr)))%Z
  ∧ last_heartbeat (stability w') = last_heartbeat (stability w).
Proof.
  induction l as [|me l IH]; intros w w' tr r; simpl.
  - intros [= <- <- <-]. simpl. (split; [|split]); [intros _| |done]; lia.
  - intros H. apply bind_inv in H
      as [(w1 & t1 & [] & t2 & Hh & Hrest & ->)|[(e & Hh & ->)|[Hh ->]]].
    + destruct (handle_message_total _ _ _ _ _ _ Hh) as (Hok & _ & Hhb).
      specialize (Hok eq_refl).
      destruct (IH _ _ _ _ Hrest) as (IH1 & IH2 & IH3).
      rewrite dispatched_app, length_app, Nat2Z.inj_add.
      (split; [|split]); [intros Hr; specialize (IH1 Hr)| |congruence]; lia.
    + destruct (handle_message_total _ _ _ _ _ _ Hh) as (_ & Hko & Hhb).
      destruct Hko as [Ht Hd]; [done|]. (split; [|split]); [done| |done]. lia.
    + destruct (handle_message_total _ _ _ _ _ _ Hh) as (_ & Hko & Hhb).
      destruct Hko as [Ht Hd]; [done|]. (split; [|split]); [done| |done]. lia.
Qed.

Lemma listener_try_total cfg env w w' tr r :
  listener_try cfg env w = (w', tr, r) →
  (r = Ret tt →
   total_messages (stability w')
   = (total_messages (stability w) + Z.of_nat (length (dispatched tr)))%Z)
  ∧ (total_messages (stability w) ≤ total_messages (stability w')
     ≤ total_messages (stability w) + Z.of_nat (length (dispatched tr)))%Z
  ∧ last_heartbeat (stability w') = last_heartbeat (stability w).
Proof.
  unfold listener_try, restore_login, poll_messages, resync, adjust_interval,
    get_latest.
  intros H. destruct w as [? [] [] ? ?].
  crush_M.
  all: try ((split; [|split]); [intros _; simpl; lia|simpl; lia|done]).
  all: try ((split; [|split]); [done|simpl; lia|done]).
  all: match goal with
       | H : for_each _ _ _ = _ |- _ =>
           destruct (for_each_total _ _ _ _ _ _ H) as (Hok & Hb & Hhb);
           simpl in Hok, Hb, Hhb
       end.
  all: rewrite ?app_nil_r, ?dispatched_app, ?length_app; simpl;
    rewrite ?Nat.add_0_r.
  all: repeat match goal with x : unit |- _ => destruct x end.
  all: (split; [|split]); [auto|lia|done].
Qed.

Lemma heartbeat_iteration_total cfg env w w' tr s :
  heartbeat_iteration cfg env w = (w', tr, s) →
  dispatched tr = []
  ∧ total_messages (stability w') = total_messages (stability w)
  ∧ last_message_time (stability w') = last_message_time (stability w).
Proof.
  unfold heartbeat_iteration, heartbeat_try. intros H.
  destruct w as [? [] ? ? []]; crush_M; done.
Qed.

Lemma do_step_total cfg st w w' tr s :
  do_step cfg st w = (w', tr, s) →
  (s = Completed →
   total_messages (stability w')
   = (total_messages (stability w) + Z.of_nat (length (dispatched tr)))%Z)
  ∧ (total_messages (stability w) ≤ total_messages (stability w')
     ≤ total_messages (stability w) + Z.of_nat (length (dispatched tr)))%Z.
Proof.
  destruct st as [env|env|b]; simpl.
  - unfold listener_iteration. destruct (listener_running w); simpl.
    + destruct (listener_try cfg env w) as [[w1 t1] [[]|e|]] eqn:Htry;
        destruct (listener_try_total _ _ _ _ _ _ Htry) as (Hok & Hb & _);
        intros [= <- <- <-]; simpl; rewrite ?dispatched_app, ?app_nil_r;
        simpl; rewrite ?app_nil_r; (split; [|try done]); auto; try done.
    + intros [= <- <- <-]. change (dispatched []) with (@nil message).
      simpl. split; [done|lia].
  - intros H.
    destruct (heartbeat_iteration_total _ _ _ _ _ _ H) as (-> & -> & _).
    simpl. split; [intros _|]; lia.
  - intros [= <- <- <-]. change (dispatched []) with (@nil message).
    simpl. split; [intros _|]; lia.
Qed.

(** X4: [total_messages] counts the messages handed to
    [processor.process]: over any run it never decreases and grows by at
    most the number of calls of [processor.process]; it grows by exactly
    that number when every listener iteration ran to its end (a message
    whose handling raised is not counted). *)
Theorem total_messages_counts_dispatches cfg w steps w' recs :
  run cfg w steps = (w', recs) →
  (total_messages (stability w) ≤ total_messages (stability w')
   ≤ total_messages (stability w)
     + Z.of_nat (length (dispatched (trace_of recs))))%Z
  ∧ (Forall (λ rec, is_listener_step (rec_step rec) = true →
                    rec_status rec = Completed) recs →
     total_messages (stability w')
     = (total_messages (stability w)
        + Z.of_nat (length (dispatched (trace_of recs))))%Z).
Proof.
  revert w w' recs. induction steps as [|st steps IH]; intros w w' recs.
  - intros [= <- <-]. simpl. split; [|intros _]; lia.
  - rewrite run_cons.
    destruct (do_step cfg st w) as [[w1 tr] s] eqn:Hstep.
    destruct (run cfg w1 steps) as [w2 recs'] eqn:Hrun.
    intros [= <- <-].
    destruct (do_step_total _ _ _ _ _ _ Hstep) as [Hok Hb].
    destruct (IH _ _ _ Hrun) as [IHb IHok].
    rewrite trace_of_cons, dispatched_app, length_app, Nat2Z.inj_add. simpl.
    split; [lia|].
    intros Hall. apply Forall_cons in Hall as [Hs Hall]. simpl in Hs.
    specialize (IHok Hall).
    destruct st as [env|env|b].
    + specialize (Hok (Hs eq_refl)). lia.
    + simpl in Hstep.
      destruct (heartbeat_iteration_total _ _ _ _ _ _ Hstep) as (Hd & Ht & _).
      rewrite Hd in *. simpl in *. lia.
    + simpl in Hstep. simplify_eq. simpl in *. lia.
Qed.

Lemma total_messages_counts_dispatches_witness :
  (total_messages (stability Scenario.start)
   ≤ total_messages (stability
       (run Scenario.cfg Scenario.start
          [Scenario.poll [(Scenario.named "2" "again", Scenario.failing);
                          (Scenario.named "1" "hi", Scenario.quiet)]]).1)
   ≤ total_messages (stability Scenario.start)
     + Z.of_nat (length (dispatched (trace_of
         (run Scenario.cfg Scenario.start
            [Scenario.poll [(Scenario.named "2" "again", Scenario.failing);
                            (Scenario.named "1" "hi", Scenario.quiet)]]).2))))%Z.
Proof.
  destruct (run Scenario.cfg Scenario.start _) as [w recs] eqn:Hrun.
  exact (proj1 (total_messages_counts_dispatches _ _ _ _ _ Hrun)).
Defined.

(** ** Which fields each loop writes *)

(** X5: the two loops write different parts of the shared state: a
    listener iteration leaves [last_heartbeat] and the heartbeat task
    alone; a heartbeat iteration leaves the listener's variables,
    [last_message_time], [total_messages] and the listener task alone. *)
Theorem loops_keep_to_their_fields cfg st w w' tr s :
  do_step cfg st w = (w', tr, s) →
  (is_listener_step st = true →
   last_heartbeat (stability w') = last_heartbeat (stability w)
   ∧ heartbeat_running w' = heartbeat_running w)
  ∧ (is_heartbeat_step st = true →
     locals w' = locals w
     ∧ last_message_time (stability w') = last_message_time (stability w)
     ∧ total_messages (stability w') = total_messages (stability w)
     ∧ listener_running w' = listener_running w).
Proof.
  destruct st as [env|env|b]; simpl; intros H; (split; [|]); try done;
    intros _.
  - unfold listener_iteration in H.
    destruct (listener_running w); simpl in H; [|by simplify_eq].
    destruct (listener_try cfg env w) as [[w1 t1] [[]|e|]] eqn:Htry;
      destruct (listener_try_total _ _ _ _ _ _ Htry) as (_ & _ & Hhb);
      destruct (listener_try_untouched _ _ _ _ _ _ Htry) as (_ & _ & Hr);
      simplify_eq; done.
  - destruct (heartbeat_iteration_total _ _ _ _ _ _ H) as (_ & Ht & Hm).
    split_and!; [by eapply heartbeat_iteration_locals|done|done|].
    unfold heartbeat_iteration in H.
    destruct (heartbeat_running w); simpl in H; [|by simplify_eq].
    destruct (heartbeat_try cfg env w) as [[w1 t1] [[]|e|]] eqn:Htry;
      destruct (heartbeat_try_frame _ _ _ _ _ _ Htry)
        as (_ & _ & _ & _ & Hr & _);
      simplify_eq; done.
Qed.

Lemma loops_keep_to_their_fields_witness :
  locals (do_step Scenario.cfg (Outage.logout_tick Scenario.online)
            Scenario.start).1.1
  = locals Scenario.start.
Proof.
  destruct (do_step Scenario.cfg (Outage.logout_tick Scenario.online)
              Scenario.start) as [[w' tr] s] eqn:H.
  exact (proj1 (proj2 (loops_keep_to_their_fields _ _ _ _ _ _ H) eq_refl)).
Defined.

(** ** Keys are never empty *)

Lemma truthy_nonempty s : Py.truthy s = true ↔ s ≠ "".
Proof. by destruct s. Qed.

Lemma dispatch_message_keyed cfg msg env w w' tr r :
  unique_key msg ≠ "" →
  dispatch_message cfg msg env w = (w', tr, r) → Forall keyed tr.
Proof.
  unfold dispatch_message. intros Hk H.
  crush_M; repeat constructor; try done; by apply truthy_nonempty.
Qed.

Lemma handle_message_keyed cfg me :
  tracks (λ _ t, Forall keyed t) (handle_message cfg me).
Proof.
  intros w t w' tr r H Ht. apply Forall_app. split; [done|].
  rewrite handle_message_classify in H.
  destruct (classify_in w me.1) eqn:Hc.
  - by simplify_eq.
  - by simplify_eq.
  - simplify_eq. repeat constructor. simpl.
    unfold classify_in, classify in Hc.
    destruct (Py.truthy (unique_key me.1)) eqn:Hk; [|done].
    by apply truthy_nonempty.
  - assert (unique_key me.1 ≠ "") as Hk.
    { unfold classify_in, classify in Hc.
      destruct (Py.truthy (unique_key me.1)) eqn:Hk; [|done].
      by apply truthy_nonempty. }
    destruct (dispatch_message _ _ _ _) as [[w2 t2] r2] eqn:Hd. simplify_eq.
    constructor; [done|]. by eapply dispatch_message_keyed.
Qed.

Lemma listener_try_keyed cfg env :
  tracks (λ _ t, Forall keyed t) (listener_try cfg env).
Proof.
  unfold listener_try, restore_login, poll_messages, adjust_interval, resync.
  repeat first
    [ apply handle_message_keyed
    | apply tracks_for_each; intros ?
    | apply tracks_get
    | apply tracks_ret
    | apply tracks_bind; [|intros ?]
    | apply tracks_modify; by intros ??
    | apply tracks_emit; intros ???; apply Forall_app; by repeat constructor
    | apply tracks_login_call; intros ???; apply Forall_app;
        by repeat constructor
    | apply tracks_get_latest; intros ???; apply Forall_app;
        by repeat constructor
    | case_match ].
Qed.

Lemma do_step_keyed cfg st w w' tr s :
  do_step cfg st w = (w', tr, s) → Forall keyed tr.
Proof.
  destruct st as [env|env|b]; simpl.
  - unfold listener_iteration. destruct (listener_running w); simpl;
      [|by intros [= <- <- <-]].
    destruct (listener_try cfg env w) as [[w1 t1] r] eqn:Htry.
    pose proof (listener_try_keyed cfg env w [] _ _ _ Htry (Forall_nil_2 _))
      as Hk.
    destruct r; intros [= <- <- <-]; [done| |done].
    apply Forall_app. split; [done|]. by repeat constructor.
  - unfold heartbeat_iteration, heartbeat_try. intros H.
    destruct w as [? [] ? ? []]; crush_M; by repeat constructor.
  - by intros [= <- <- <-].
Qed.

Lemma keyed_recorded t : Forall keyed t → Forall (λ k, k ≠ "") (recorded_keys t).
Proof.
  induction 1 as [|e t He _ IH]; [constructor|].
  destruct e; try done. change (recorded_keys (EvRecorded key :: t))
    with (key :: recorded_keys t). by constructor.
Qed.

Lemma keyed_dispatched t :
  Forall keyed t → Forall (λ m, unique_key m ≠ "") (dispatched t).
Proof.
  induction 1 as [|e t He _ IH]; [constructor|].
  destruct e; try done. change (dispatched (EvProcess m r :: t))
    with (m :: dispatched t). by constructor.
Qed.

Lemma run_keyed cfg steps : ∀ w w' recs,
  run cfg w steps = (w', recs) → Forall keyed (trace_of recs).
Proof.
  induction steps as [|st steps IH]; intros w w' recs.
  - intros [= <- <-]. constructor.
  - rewrite run_cons.
    destruct (do_step cfg st w) as [[w1 tr] s] eqn:Hstep.
    destruct (run cfg w1 steps) as [w2 recs'] eqn:Hrun.
    intros [= <- <-]. rewrite trace_of_cons. simpl.
    apply Forall_app. split; [by eapply do_step_keyed|by eapply IH].
Qed.

Lemma keyed_sent t : Forall keyed t → Forall (λ s, s ≠ "") (sent_replies t).
Proof.
  induction 1 as [|e t He _ IH]; [constructor|].
  destruct e as [| | | | | |reply [[]| |]| | | |]; try done.
  change (sent_replies (EvSendText reply (Ret true) :: t))
    with (reply :: sent_replies t). by constructor.
Qed.

(** X6: the empty string is never a dedup key: no key recorded in a run is
    empty, every message handed to [processor.process] has a non-empty
    key, and [processed_order] never holds the empty string. *)
Theorem empty_key_never_recorded cfg logged stab steps w recs :
  run cfg (initial_world logged stab) steps = (w, recs) →
  Forall (λ k, k ≠ "") (recorded_keys (trace_of recs))
  ∧ Forall (λ m, unique_key m ≠ "") (dispatched (trace_of recs))
  ∧ "" ∉ processed_order (locals w).
Proof.
  intros Hrun. pose proof (run_keyed _ _ _ _ _ Hrun) as Hk.
  split_and!; [by apply keyed_recorded|by apply keyed_dispatched|].
  destruct (reachable_inv _ _ _ _ _ _ Hrun) as [Ho _ _ _ _].
  rewrite Ho. intros Hin.
  apply (subseteq_drop _ (recorded_keys (trace_of recs))) in Hin.
  apply keyed_recorded in Hk. rewrite Forall_forall in Hk.
  by apply (Hk "").
Qed.

Lemma empty_key_never_recorded_witness :
  "" ∉ processed_order (locals
         (run Scenario.cfg (initial_world true fresh_stability)
            [Scenario.poll
               [(Message (Py.PyStr "  ") Py.Missing (Py.PyStr "text"),
                 Scenario.quiet)]]).1).
Proof.
  destruct (run Scenario.cfg (initial_world true fresh_stability) _)
    as [w recs] eqn:Hrun.
  exact (proj2 (proj2 (empty_key_never_recorded _ _ _ _ _ _ Hrun))).
Defined.

(** X7: the listener sends no empty reply, and its echo buffer holds
    none. *)
Theorem empty_reply_never_sent cfg logged stab steps w recs :
  run cfg (initial_world logged stab) steps = (w, recs) →
  (∀ reply r, EvSendText reply r ∈ trace_of recs → reply ≠ "")
  ∧ "" ∉ sent_buffer (locals w).
Proof.
  intros Hrun. pose proof (run_keyed _ _ _ _ _ Hrun) as Hk. split.
  - intros reply r Hin. rewrite Forall_forall in Hk. exact (Hk _ Hin).
  - destruct (reachable_inv _ _ _ _ _ _ Hrun) as [_ Hs _ _ _].
    rewrite Hs. intros Hin.
    apply (subseteq_drop _ (sent_replies (trace_of recs))) in Hin.
    apply keyed_sent in Hk. rewrite Forall_forall in Hk.
    by apply (Hk "").
Qed.

Lemma empty_reply_never_sent_witness :
  "" ∉ sent_buffer (locals
         (run Scenario.cfg (initial_world true fresh_stability)
            [Scenario.poll
               [(Scenario.named "1" "hi", Scenario.replying "")]]).1).
Proof.
  destruct (run Scenario.cfg (initial_world true fresh_stability) _)
    as [w recs] eqn:Hrun.
  exact (proj2 (empty_reply_never_sent _ _ _ _ _ _ Hrun)).
Defined.

(** ** Replies with surrounding whitespace *)

Lemma message_content_stripped msg :
  Py.strip (message_content msg) = message_content msg.
Proof. apply strip_idempotent. Qed.

(** X8: the echo test compares the stripped text of a message with the
    replies as they were sent.  When every reply in the echo buffer begins
    or ends with whitespace, no message is taken for an echo: a new
    message with a key is dispatched (and counts as activity), whatever
    its text. *)
Theorem padded_reply_never_suppresses cfg me w w' tr r :
  Forall (λ reply, Py.strip reply ≠ reply) (sent_buffer (locals w)) →
  unique_key me.1 ≠ "" →
  unique_key me.1 ∉ processed_set (locals w) →
  handle_message cfg me w = (w', tr, r) →
  classify_in w me.1 = Dispatch
  ∧ had_messages (locals w') = true
  ∧ (auto_download cfg && is_attachment me.1 = false →
     EvProcess me.1 (env_process me.2) ∈ tr).
Proof.
  intros Hpad Hkey Hnew H.
  assert (classify_in w me.1 = Dispatch) as Hc.
  { unfold classify_in, classify.
    rewrite (proj2 (truthy_nonempty _) Hkey). simpl.
    rewrite bool_decide_eq_false_2 by done.
    destruct (Py.truthy (message_content me.1)); simpl; [|done].
    rewrite bool_decide_eq_false_2; [done|].
    intros Hin. rewrite Forall_forall in Hpad.
    by apply (Hpad _ Hin), message_content_stripped. }
  split; [done|].
  rewrite handle_message_classify, Hc in H.
  destruct (dispatch_message _ _ _ _) as [[w2 t2] r2] eqn:Hd. simplify_eq.
  split.
  - by rewrite (dispatch_message_locals _ _ _ _ _ _ _ Hd).
  - intros Hno. unfold dispatch_message in Hd. rewrite Hno in Hd.
    crush_M; set_solver.
Qed.

Lemma padded_reply_never_suppresses_witness :
  classify_in (push_sent "ok " Scenario.start) (Scenario.named "7" "ok ")
  = Dispatch.
Proof.
  destruct (handle_message Scenario.cfg
              (Scenario.named "7" "ok ", Scenario.quiet)
              (push_sent "ok " Scenario.start)) as [[w' tr] r] eqn:H.
  refine (proj1 (padded_reply_never_suppresses Scenario.cfg
                   (Scenario.named "7" "ok ", Scenario.quiet)
                   (push_sent "ok " Scenario.start) w' tr r _ _ _ H)).
  - by repeat constructor.
  - by vm_compute.
  - vm_compute. set_solver.
Defined.

(** ** The range of the poll interval *)

Lemma listener_try_interval cfg env w w' tr r :
  listener_try cfg env w = (w', tr, r) →
  r ≠ Ret tt → poll_interval (locals w') = poll_interval (locals w).
Proof.
  unfold listener_try, restore_login, poll_messages, resync, adjust_interval,
    get_latest.
  intros H Hr. destruct w as [? [] [] ? ?].
  crush_M; try done.
  all: match goal with
       | H : for_each _ _ _ = _ |- _ =>
           apply for_each_loop_rel in H; by rewrite (loop_interval _ _ _ H)
       end.
Qed.

Lemma next_interval_in_range l :
  (min_interval <= poll_interval l)%Q →
  (min_interval <= next_interval l)%Q ∧ (next_interval l <= max_interval)%Q.
Proof.
  unfold next_interval, Py.min, min_interval, max_interval, backoff_factor.
  intros Hp. destruct (had_messages l); [split; lra|].
  destruct (Qlt_le_dec _ _); split; lra.
Qed.

Lemma do_step_interval_in_range cfg st w w' tr s :
  do_step cfg st w = (w', tr, s) →
  interval_in_range w → interval_in_range w'.
Proof.
  unfold interval_in_range. destruct st as [env|env|b]; simpl.
  - unfold listener_iteration. destruct (listener_running w); simpl;
      [|by intros [= <- <- <-]].
    destruct (listener_try cfg env w) as [[w1 t1] [[]|e|]] eqn:Htry;
      intros [= <- <- <-] [Hlo Hhi].
    + apply listener_try_Ret_inv in Htry
        as (wa & ta & wb & tb & H1 & H2 & -> & ->).
      simpl. apply next_interval_in_range.
      pose proof (restore_login_spec _ _ _ _ _ H1) as (Hloc1 & _).
      apply poll_messages_Ret_inv in H2
        as [(_ & -> & _)|(_ & msgs & wc & tc & td & _ & Hl & Hr & _)].
      * by rewrite Hloc1.
      * apply for_each_loop_rel in Hl.
        destruct (resync_locals _ _ _ _ Hr) as (_ & -> & _).
        by rewrite (loop_interval _ _ _ Hl), Hloc1.
    + simpl. unfold min_interval, max_interval. split; lra.
    + simpl. by rewrite (listener_try_interval _ _ _ _ _ _ Htry).
  - intros H. by rewrite (heartbeat_iteration_locals _ _ _ _ _ _ H).
  - by intros [= <- <- <-].
Qed.

(** X9: the poll interval stays between 0.5 and 3.0 seconds: from a state
    where it is in that range (the initial 1.0 is), it is in that range
    after every step of every run, however the iterations end. *)
Theorem poll_interval_in_range cfg w steps w' recs :
  interval_in_range w →
  run cfg w steps = (w', recs) →
  interval_in_range w'
  ∧ Forall (λ rec, interval_in_range (rec_after rec)) recs.
Proof.
  revert w w' recs. induction steps as [|st steps IH]; intros w w' recs Hw.
  - by intros [= <- <-].
  - rewrite run_cons.
    destruct (do_step cfg st w) as [[w1 tr] s] eqn:Hstep.
    destruct (run cfg w1 steps) as [w2 recs'] eqn:Hrun.
    intros [= <- <-].
    pose proof (do_step_interval_in_range _ _ _ _ _ _ Hstep Hw) as Hw1.
    destruct (IH _ _ _ Hw1 Hrun) as [? ?].
    split; [done|]. by constructor.
Qed.

Lemma poll_interval_in_range_witness :
  interval_in_range
    (run Scenario.cfg Scenario.start
       [Scenario.poll [(Scenario.named "1" "hi", Scenario.failing)];
        Scenario.poll []]).1.
Proof.
  destruct (run Scenario.cfg Scenario.start _) as [w recs] eqn:Hrun.
  refine (proj1 (poll_interval_in_range _ Scenario.start _ w recs _ Hrun)).
  by vm_compute.
Defined.

(** ** When the listener calls the transport *)

Lemma message_events_no_call l :
  Forall (λ e, message_event e = true) l →
  (∀ r, EvCheckLogin r ∉ l) ∧ (∀ r, EvGetLatest r ∉ l).
Proof.
  intros Hl. split; intros r Hin; rewrite Forall_forall in Hl;
    by specialize (Hl _ Hin).
Qed.

(** X10: the listener checks the login only when it finds the bot logged
    out, fetches messages only when the bot is (then) logged in, and an
    iteration that ends logged out has recorded and dispatched nothing. *)
Theorem listener_calls_are_gated cfg env w w' tr s :
  listener_iteration cfg env w = (w', tr, s) →
  (∀ r, EvCheckLogin r ∈ tr →
        is_logged_in w = false ∧ r = login_result (env_check_login env))
  ∧ (∀ r, EvGetLatest r ∈ tr →
          is_logged_in w' = true
          ∧ (is_logged_in w = true
             ∨ (login_state (env_check_login env) = true
                ∧ login_result (env_check_login env) = Ret tt)))
  ∧ (is_logged_in w' = false →
     recorded_keys tr = [] ∧ dispatched tr = []).
Proof.
  unfold listener_iteration, listener_try, restore_login, poll_messages,
    resync, adjust_interval, get_latest.
  intros H. destruct w as [? [] [] ? ?].
  crush_M.
  all: try match goal with
       | H : for_each _ _ _ = _ |- _ =>
           apply for_each_loop_rel in H;
           pose proof (loop_logged _ _ _ H) as Hlog;
           destruct (message_events_no_call _ (loop_events _ _ _ H))
             as [Hnc Hng];
           simpl in Hlog
       end.
  all: repeat match goal with x : unit |- _ => destruct x end.
  all: repeat match goal with
         | H : negb ?b = _ |- _ => destruct b; simpl in H; try done
         end.
  all: split_and!;
    [ try (intros r Hin; set_solver)
    | try (intros r Hin; set_solver)
    | try (intros Hout; simpl in *; try done; try congruence) ].
Qed.

Lemma listener_calls_are_gated_witness :
  let '(w', tr, s) :=
    listener_iteration Scenario.cfg
      (CycleEnv Scenario.offline
         (Ret [(Scenario.named "1" "hi", Scenario.quiet)]) "")
      (initial_world false fresh_stability) in
  recorded_keys tr = [] ∧ dispatched tr = [].
Proof.
  destruct (listener_iteration _ _ _) as [[w' tr] s] eqn:H.
  pose proof (proj2 (proj2 (listener_calls_are_gated _ _ _ _ _ _ H)))
    as Hout.
  apply Hout. vm_compute in H. by injection H as <- <- <-.
Defined.

(** ** What is downloaded and what is sent *)

Lemma dispatch_message_downloads cfg msg env w w' tr r :
  dispatch_message cfg msg env w = (w', tr, r) →
  Forall (download_allowed cfg) tr.
Proof.
  unfold dispatch_message. intros H.
  destruct (auto_download cfg && is_attachment msg) eqn:Hd.
  - apply andb_true_iff in Hd as [Ha Hi]. crush_M; by repeat constructor.
  - crush_M; by repeat constructor.
Qed.

Lemma do_step_downloads cfg st w w' tr s :
  do_step cfg st w = (w', tr, s) → Forall (download_allowed cfg) tr.
Proof.
  assert (∀ me, tracks (λ _ t, Forall (download_allowed cfg) t)
                  (handle_message cfg me)) as Hh.
  { intros me w0 t w1 t1 r H Ht. apply Forall_app. split; [done|].
    rewrite handle_message_classify in H.
    destruct (classify_in w0 me.1); simplify_eq; try by repeat constructor.
    destruct (dispatch_message _ _ _ _) as [[w2 t2] r2] eqn:Hd. simplify_eq.
    constructor; [done|]. by eapply dispatch_message_downloads. }
  destruct st as [env|env|b]; simpl.
  - unfold listener_iteration. destruct (listener_running w); simpl;
      [|by intros [= <- <- <-]].
    destruct (listener_try cfg env w) as [[w1 t1] r] eqn:Htry.
    assert (Forall (download_allowed cfg) t1) as Hk.
    { revert Htry.
      assert (tracks (λ _ t, Forall (download_allowed cfg) t)
                (listener_try cfg env)) as Ht; [|intros Htry;
        exact (Ht w [] _ _ _ Htry (Forall_nil_2 _))].
      unfold listener_try, restore_login, poll_messages, adjust_interval,
        resync.
      repeat first
        [ apply Hh
        | apply tracks_for_each; intros ?
        | apply tracks_get
        | apply tracks_ret
        | apply tracks_bind; [|intros ?]
        | apply tracks_modify; by intros ??
        | apply tracks_emit; intros ???; apply Forall_app;
            by repeat constructor
        | apply tracks_login_call; intros ???; apply Forall_app;
            by repeat constructor
        | apply tracks_get_latest; intros ???; apply Forall_app;
            by repeat constructor
        | case_match ]. }
    destruct r; intros [= <- <- <-]; [done| |done].
    apply Forall_app. split; [done|]. by repeat constructor.
  - unfold heartbeat_iteration, heartbeat_try. intros H.
    destruct w as [? [] ? ? []]; crush_M; by repeat constructor.
  - by intros [= <- <- <-].
Qed.

(** X11: the listener downloads only attachments (type "image" or
    "file"), and only when [auto_download] is set; with [auto_download]
    off nothing is ever downloaded. *)
Theorem downloads_only_for_attachments cfg w steps w' recs :
  run cfg w steps = (w', recs) →
  (∀ m r, EvDownload m r ∈ trace_of recs →
          auto_download cfg = true ∧ is_attachment m = true)
  ∧ (auto_download cfg = false → ∀ m r, EvDownload m r ∉ trace_of recs).
Proof.
  intros Hrun.
  assert (Forall (download_allowed cfg) (trace_of recs)) as Hall.
  { revert w w' recs Hrun.
    induction steps as [|st steps IH]; intros w w' recs.
    - intros [= <- <-]. constructor.
    - rewrite run_cons.
      destruct (do_step cfg st w) as [[w1 tr] s] eqn:Hstep.
      destruct (run cfg w1 steps) as [w2 recs'] eqn:Hrun.
      intros [= <- <-]. rewrite trace_of_cons. simpl.
      apply Forall_app. split; [by eapply do_step_downloads|by eapply IH]. }
  rewrite Forall_forall in Hall. split.
  - intros m r Hin. exact (Hall _ Hin).
  - intros Hoff m r Hin. destruct (Hall _ Hin) as [Hon _]. congruence.
Qed.

Lemma downloads_only_for_attachments_witness :
  auto_download Scenario.cfg = true
  ∧ is_attachment (Message (Py.PyStr "") (Py.PyStr "9") (Py.PyStr "image"))
    = true.
Proof.
  destruct (run Scenario.cfg Scenario.start
              [Scenario.poll
                 [(Message (Py.PyStr "") (Py.PyStr "9") (Py.PyStr "image"),
                   Scenario.quiet)]]) as [w recs] eqn:Hrun.
  refine (proj1 (downloads_only_for_attachments _ _ _ _ _ Hrun) _ (Ret tt) _).
  vm_compute in Hrun. injection Hrun as <- <-.
  unfold trace_of. simpl. do 2 right. left.
Defined.

Lemma replies_justified_app p t1 t2 :
  replies_justified p t1 = true →
  (∀ q, replies_justified q t2 = true) →
  replies_justified p (t1 ++ t2) = true.
Proof.
  revert p. induction t1 as [|e t1 IH]; intros p; simpl; [done|].
  intros [He Ht]%andb_true_iff Ht2. rewrite He. simpl. by apply IH.
Qed.

Lemma dispatch_message_replies cfg msg env w w' tr r q :
  dispatch_message cfg msg env w = (w', tr, r) →
  replies_justified q tr = true.
Proof.
  unfold dispatch_message. intros H.
  crush_M; by rewrite ?bool_decide_eq_true_2.
Qed.

Lemma handle_message_replies cfg me :
  tracks (λ _ t, replies_justified None t = true) (handle_message cfg me).
Proof.
  intros w t w' tr r H Ht. apply replies_justified_app; [done|]. intros q.
  rewrite handle_message_classify in H.
  destruct (classify_in w me.1); simplify_eq; try done.
  destruct (dispatch_message _ _ _ _) as [[w2 t2] r2] eqn:Hd. simplify_eq.
  simpl. by eapply dispatch_message_replies.
Qed.

Lemma do_step_replies cfg st w w' tr s q :
  do_step cfg st w = (w', tr, s) → replies_justified q tr = true.
Proof.
  destruct st as [env|env|b]; simpl.
  - unfold listener_iteration. destruct (listener_running w); simpl;
      [|by intros [= <- <- <-]].
    destruct (listener_try cfg env w) as [[w1 t1] r] eqn:Htry.
    assert (replies_justified None t1 = true) as Hk.
    { revert Htry.
      assert (tracks (λ _ t, replies_justified None t = true)
                (listener_try cfg env)) as Ht; [|intros Htry;
        exact (Ht w [] _ _ _ Htry eq_refl)].
      unfold listener_try, restore_login, poll_messages, adjust_interval,
        resync.
      repeat first
        [ apply handle_message_replies
        | apply tracks_for_each; intros ?
        | apply tracks_get
        | apply tracks_ret
        | apply tracks_bind; [|intros ?]
        | apply tracks_modify; by intros ??
        | apply tracks_emit; intros ???; by apply replies_justified_app
        | apply tracks_login_call; intros ???;
            by apply replies_justified_app
        | apply tracks_get_latest; intros ???;
            by apply replies_justified_app
        | case_match ]. }
    assert (∀ t, replies_justified None t = true →
                 replies_justified q t = true) as Hq.
    { intros [|e t]; [done|]. simpl. by destruct e. }
    destruct r; intros [= <- <- <-]; [by apply Hq| |by apply Hq].
    apply replies_justified_app; [by apply Hq|done].
  - unfold heartbeat_iteration, heartbeat_try. intros H.
    destruct w as [? [] ? ? []]; crush_M; done.
  - by intros [= <- <- <-].
Qed.

Lemma replies_justified_split p t1 text r t2 :
  replies_justified p (t1 ++ EvSendText text r :: t2) = true →
  ∃ m, last (option_list p ++ t1) = Some (EvProcess m (Ret (Some text))).
Proof.
  revert p. induction t1 as [|e t1 IH]; intros p; simpl.
  - intros [He _]%andb_true_iff.
    destruct p as [[| | | | |m [[reply|]| |]| | | | |]|]; try done.
    apply bool_decide_eq_true in He as ->. exists m. by rewrite app_nil_r.
  - intros [_ Ht]%andb_true_iff. destruct (IH _ Ht) as (m & Hm).
    exists m. simpl in Hm. by destruct p.
Qed.

(** X12: the listener sends nothing of its own: every [send_text] in a run
    comes right after a call of [processor.process] that returned the very
    text sent. *)
Theorem replies_come_from_processor cfg w steps w' recs t1 text r t2 :
  run cfg w steps = (w', recs) →
  trace_of recs = t1 ++ EvSendText text r :: t2 →
  ∃ m, last t1 = Some (EvProcess m (Ret (Some text))).
Proof.
  intros Hrun.
  assert (∀ q, replies_justified q (trace_of recs) = true) as Hall.
  { revert w w' recs Hrun.
    induction steps as [|st steps IH]; intros w w' recs.
    - by intros [= <- <-].
    - rewrite run_cons.
      destruct (do_step cfg st w) as [[w1 tr] s] eqn:Hstep.
      destruct (run cfg w1 steps) as [w2 recs'] eqn:Hrun.
      intros [= <- <-] q. rewrite trace_of_cons. simpl.
      apply replies_justified_app; [by eapply do_step_replies|].
      by eapply IH. }
  intros Ht. specialize (Hall None). rewrite Ht in Hall.
  by apply replies_justified_split in Hall.
Qed.

Lemma replies_come_from_processor_witness :
  ∃ m,
    last [EvGetLatest (Ret [Scenario.named "2" "/ping"]);
          EvRecorded "2";
          EvProcess (Scenario.named "2" "/ping") (Ret (Some "pong"))]
    = Some (EvProcess m (Ret (Some "pong"))).
Proof.
  destruct (run Scenario.cfg Scenario.start
              [Scenario.poll
                 [(Scenario.named "2" "/ping", Scenario.replying "pong")]])
    as [w recs] eqn:Hrun.
  refine (replies_come_from_processor _ _ _ _ _ _ "pong" (Ret true) [] Hrun _).
  vm_compute in Hrun. by injection Hrun as <- <-.
Defined.

(** * File downloads *)

Module DownloadFacts.

Import Stdlib.Strings.Ascii.
Import Download.

Lemma contains_app c s1 s2 :
  contains c (s1 +:+ s2) = contains c s1 || contains c s2.
Proof.
  induction s1 as [|c' s1 IH]; [done|].
  rewrite string_app_cons. simpl. by rewrite IH, orb_assoc.
Qed.

Lemma default_file_name_nonempty msg_id order_len :
  default_file_name msg_id order_len ≠ "".
Proof. done. Qed.

Lemma string_app_nonempty s1 s2 : s1 ≠ "" → s1 +:+ s2 ≠ "".
Proof. by destruct s1. Qed.

Lemma or_else_nonempty a b : b ≠ "" → Py.or_else a b ≠ "".
Proof. unfold Py.or_else. by destruct a. Qed.

Lemma pretty_N_go_no_dot x : ∀ s,
  contains "." s = false → contains "." (pretty_N_go x s) = false.
Proof.
  induction (N.lt_wf_0 x) as [x _ IH]; intros s Hs.
  assert (x = 0 ∨ 0 < x)%N as [->|Hx] by lia; [by rewrite pretty_N_go_0|].
  rewrite pretty_N_go_step by done. apply IH; [by apply N.div_lt|].
  simpl. rewrite Hs. unfold pretty_N_char. by repeat case_match.
Qed.

Lemma pretty_N_no_dot (n : N) : contains "." (pretty n) = false.
Proof.
  unfold pretty, pretty_N. case_decide; [done|]. by apply pretty_N_go_no_dot.
Qed.

(** X13: the name a download is saved under is never empty; for an image
    it always contains a dot (".jpg" is appended otherwise); a given
    non-empty name is kept as it is unless it is an image's name without a
    dot; and for a message with neither name nor id the name is
    "download_" followed by the length of [processed_order]. *)
Theorem download_file_name_shape att msg_id order_len :
  file_name_of att msg_id order_len ≠ ""
  ∧ (is_image (att_message att) = true →
     contains "." (file_name_of att msg_id order_len) = true)
  ∧ (∀ s, att_file_name att = Some s → s ≠ "" →
          is_image (att_message att) = false ∨ contains "." s = true →
          file_name_of att msg_id order_len = s)
  ∧ (att_file_name att = None ∨ att_file_name att = Some "" →
     msg_id = "" →
     file_name_of att msg_id order_len
     = "download_" +:+ pretty order_len
         +:+ (if is_image (att_message att) then ".jpg" else "")).
Proof.
  unfold file_name_of.
  set (name := match att_file_name att with
               | Some s => Py.or_else s (default_file_name msg_id order_len)
               | None => default_file_name msg_id order_len
               end).
  assert (name ≠ "") as Hname.
  { unfold name. destruct (att_file_name att);
      [apply or_else_nonempty|]; apply default_file_name_nonempty. }
  split_and!.
  - destruct (_ && _); [by apply string_app_nonempty|done].
  - intros ->. simpl. destruct (contains "." name) eqn:Hdot; simpl; [done|].
    rewrite contains_app. by rewrite orb_true_r.
  - intros s Hs Hne Hcase. unfold name. rewrite Hs.
    assert (Py.or_else s (default_file_name msg_id order_len) = s) as ->.
    { unfold Py.or_else. by destruct s. }
    destruct Hcase as [->| ->]; [done|]. by rewrite andb_false_r.
  - intros Hnone ->.
    assert (name = "download_" +:+ pretty order_len) as ->.
    { unfold name. by destruct Hnone as [->| ->]. }
    assert (contains "." ("download_" +:+ pretty order_len) = false) as ->.
    { rewrite contains_app. simpl.
      apply pretty_N_no_dot. }
    simpl. destruct (is_image _); simpl; [done|].
    by rewrite string_app_nil_r.
Qed.

(** The id the transport is asked for is the dedup key. *)
Lemma download_id_is_key msg :
  Py.or_else (message_id msg) (unique_key msg) = unique_key msg.
Proof.
  unfold unique_key, Py.or_else.
  by destruct (Py.truthy (message_id msg)) eqn:H; rewrite ?H.
Qed.

(** X14: a download as the listener starts it asks the transport for the
    message under its dedup key (never the empty string) and a path that
    ends in the chosen name; metadata is saved only after the transport
    answered true, under the message's own id, with the name and path of
    the download and the size just written into the message; when the
    transport answers anything else the message is left as it was and
    nothing is saved. *)
Theorem download_then_save cfg env att w fields tr r :
  unique_key (att_message att) ≠ "" →
  listener_download cfg env att w = (fields, tr, r) →
  let msg := att_message att in
  let name :=
    file_name_of att (message_id msg) (length (processed_order (locals w))) in
  (∀ id p o, DlDownload id p o ∈ tr →
     id = unique_key msg ∧ id ≠ "" ∧ last p = Some name
     ∧ o = dl_download env)
  ∧ (∀ mid fname p size mime o, DlSaveFile mid fname p size mime o ∈ tr →
       mid = message_id msg ∧ fname = name
       ∧ file_path fields = Some p ∧ file_size fields = Some size
       ∧ DlDownload (unique_key msg) p (Ret true) ∈ tr
       ∧ r = o)
  ∧ (dl_download env ≠ Ret true →
     fields = FileFields None None ∧ existsb saved tr = false)
  ∧ (∀ id p, DlDownload id p (Ret false) ∈ tr → r = Ret tt).
Proof.
  intros Hkey. unfold listener_download, _handle_file_download,
    _get_file_save_path.
  rewrite download_id_is_key.
  destruct (file_date_subdir cfg), (dl_mkdir env) as [[]|e|],
    (dl_download env) as [[]|e'|], (dl_stat env) as [st|e''|];
    simpl; intros [= <- <- <-]; simpl.
  all: split_and!.
  all: try by intros ?.
  all: intros;
    repeat match goal with
      | H : _ ∈ _ :: _ |- _ => apply elem_of_cons in H as [H|H]
      | H : _ ∈ [] |- _ => by apply elem_of_nil in H
      end;
    simplify_eq; try split_and!; try done; try congruence;
    try apply last_snoc; set_solver.
Qed.

Lemma download_then_save_witness :
  "photo.jpg"
  = unique_key (Message (Py.PyStr "photo.jpg") Py.Missing (Py.PyStr "image"))
  ∧ "photo.jpg" ≠ ""
  ∧ last ["downloads"; "2026-01-01"; "photo.jpg"]
    = Some (file_name_of
              (Attachment (Message (Py.PyStr "photo.jpg") Py.Missing
                             (Py.PyStr "image")) (Some "photo"))
              (message_id (Message (Py.PyStr "photo.jpg") Py.Missing
                             (Py.PyStr "image")))
              (length (processed_order (locals Scenario.start))))
  ∧ Ret false
    = dl_download (DownloadEnv "2026-01-01" (Ret tt) (Ret false) (Ret None)
                     None (Ret tt)).
Proof.
  refine (proj1 (download_then_save
            (DownloadConfig ["downloads"] true)
            (DownloadEnv "2026-01-01" (Ret tt) (Ret false) (Ret None) None
               (Ret tt))
            (Attachment (Message (Py.PyStr "photo.jpg") Py.Missing
                           (Py.PyStr "image")) (Some "photo"))
            Scenario.start (FileFields None None)
            [DlMkdir ["downloads"; "2026-01-01"] (Ret tt);
             DlDownload "photo.jpg" ["downloads"; "2026-01-01"; "photo.jpg"]
               (Ret false)]
            (Ret tt) _ _)
            "photo.jpg" ["downloads"; "2026-01-01"; "photo.jpg"] (Ret false)
            _).
  - by vm_compute.
  - by vm_compute.
  - right. left.
Defined.

End DownloadFacts.

(** * Session saving and file cleanup *)

Module HousekeepingFacts.

Import Housekeeping.

Lemma do_task_step_cleanup cfg days st ts ts' tr s :
  (cleanup_running ts = true → (0 < days)%Z) →
  do_task_step cfg days st ts = (ts', tr, s) →
  (cleanup_running ts' = true → (0 < days)%Z)
  ∧ (∀ d r, inr (HkCleanup d r) ∈ tr → d = days ∧ (0 < d)%Z).
Proof.
  intros Hinv. destruct st as [st|save|cleanup time]; simpl.
  - destruct (do_step cfg st (core ts)) as [[w t] s']. intros [= <- <- <-].
    split; [done|]. intros d r Hin.
    apply list_elem_of_fmap in Hin as (? & ? & _). done.
  - unfold session_saver_iteration.
    destruct (saver_running ts), (is_logged_in (core ts)), save as [[]|e|];
      simpl; intros [= <- <- <-]; (split; [done|]); intros d r Hin;
      set_solver.
  - unfold cleanup_iteration.
    destruct (cleanup_running ts) eqn:Hrun; simpl;
      [|intros [= <- <- <-]; split; [by rewrite Hrun|set_solver]].
    specialize (Hinv eq_refl).
    destruct cleanup as [n|e|]; intros [= <- <- <-]; simpl;
      (split; [done|]); intros d r Hin; try case_bool_decide;
      simpl in Hin;
      repeat match goal with
        | H : _ ∈ _ :: _ |- _ => apply elem_of_cons in H as [H|H]
        | H : _ ∈ [] |- _ => by apply elem_of_nil in H
        end; by simplify_eq.
Qed.

Lemma run_tasks_cleanup cfg days steps : ∀ ts ts' tr,
  (cleanup_running ts = true → (0 < days)%Z) →
  run_tasks cfg days ts steps = (ts', tr) →
  (cleanup_running ts' = true → (0 < days)%Z)
  ∧ (∀ d r, inr (HkCleanup d r) ∈ tr → d = days ∧ (0 < d)%Z).
Proof.
  induction steps as [|st steps IH]; intros ts ts' tr Hinv; simpl.
  - intros [= <- <-]. split; [done|]. intros d r Hin. by apply elem_of_nil in Hin.
  - destruct (do_task_step cfg days st ts) as [[ts1 t1] s] eqn:Hstep.
    destruct (run_tasks cfg days ts1 steps) as [ts2 t2] eqn:Hrun.
    intros [= <- <-].
    destruct (do_task_step_cleanup _ _ _ _ _ _ _ Hinv Hstep) as [Hinv1 H1].
    destruct (IH _ _ _ Hinv1 Hrun) as [Hinv2 H2].
    split; [done|]. intros d r Hin.
    apply elem_of_app in Hin as [Hin|Hin]; eauto.
Qed.

(** X15: [start_all] creates the cleanup task only for a positive
    retention: whatever the loops do afterwards, [cleanup_old_files] is
    only ever called with [days = file_retention_days > 0], and with a
    retention of 0 (keep forever) it is never called. *)
Theorem cleanup_only_with_retention cfg days logged stab steps ts tr :
  run_tasks cfg days (start_all days logged stab) steps = (ts, tr) →
  (∀ d r, inr (HkCleanup d r) ∈ tr → d = days ∧ (0 < d)%Z)
  ∧ ((days ≤ 0)%Z → cleanup_running ts = false
                   ∧ ∀ d r, inr (HkCleanup d r) ∉ tr).
Proof.
  intros Hrun.
  assert (cleanup_running (start_all days logged stab) = true → (0 < days)%Z)
    as H0 by (simpl; by intros ?%bool_decide_eq_true).
  destruct (run_tasks_cleanup cfg days steps _ _ _ H0 Hrun) as [Hinv Hev].
  split; [done|]. intros Hd. split.
  - destruct (cleanup_running ts); [|done]. specialize (Hinv eq_refl). lia.
  - intros d r Hin. destruct (Hev _ _ Hin). lia.
Qed.

Lemma cleanup_only_with_retention_witness :
  cleanup_running
    (run_tasks Scenario.cfg 0 (start_all 0 true fresh_stability)
       [CleanupStep (Ret 2%Z) ""; SaverStep (Ret tt)]).1
  = false.
Proof.
  destruct (run_tasks Scenario.cfg 0 (start_all 0 true fresh_stability)
              [CleanupStep (Ret 2%Z) ""; SaverStep (Ret tt)])
    as [ts tr] eqn:Hrun.
  refine (proj1 (proj2 (cleanup_only_with_retention _ _ _ _ _ _ _ Hrun) _)).
  done.
Defined.

Lemma session_saver_core save ts ts' tr s :
  session_saver_iteration save ts = (ts', tr, s) → core ts' = core ts.
Proof.
  unfold session_saver_iteration.
  destruct (saver_running ts), (is_logged_in (core ts)), save as [[]|e|];
    simpl; by intros [= <- <- <-].
Qed.

(** X16: the session saver writes nothing: it calls [save_session] only
    while the bot is logged in, and a failure of the call is printed, not
    recorded in the error ring; it ends only when cancelled. *)
Theorem session_saver_is_silent save ts ts' tr s :
  session_saver_iteration save ts = (ts', tr, s) →
  core ts' = core ts
  ∧ cleanup_running ts' = cleanup_running ts
  ∧ (∀ r, HkSaveSession r ∈ tr →
          is_logged_in (core ts) = true ∧ saver_running ts = true ∧ r = save)
  ∧ (∀ e, s = Failed e →
          save = Raise e
          ∧ HkPrint ("[SessionSaver] Error: " +:+ e) ∈ tr
          ∧ saver_running ts' = true)
  ∧ (saver_running ts' ≠ saver_running ts → s = Cancelled ∧ save = Cancel).
Proof.
  unfold session_saver_iteration.
  destruct (saver_running ts) eqn:Hrun, (is_logged_in (core ts)),
    save as [[]|e|]; simpl; intros [= <- <- <-]; simpl;
    split_and!; try done; try (intros; simplify_eq; set_solver);
    try (by rewrite Hrun).
Qed.

Lemma session_saver_is_silent_witness :
  core (session_saver_iteration (Raise "disk full")
          (start_all 0 true fresh_stability)).1.1
  = core (start_all 0 true fresh_stability).
Proof.
  destruct (session_saver_iteration (Raise "disk full")
              (start_all 0 true fresh_stability)) as [[ts' tr] s] eqn:H.
  exact (proj1 (session_saver_is_silent _ _ _ _ _ H)).
Defined.

Lemma do_task_step_errors cfg days st ts ts' tr s :
  do_task_step cfg days st ts = (ts', tr, s) →
  errors (stability (core ts')) = errors (stability (core ts))
  ∨ ∃ time e,
      errors (stability (core ts'))
      = add_error_to time e (errors (stability (core ts))).
Proof.
  destruct st as [st|save|cleanup time]; simpl.
  - destruct (do_step cfg st (core ts)) as [[w t] s'] eqn:Hstep.
    intros [= <- <- <-]. simpl. by eapply do_step_errors.
  - destruct (session_saver_iteration save ts) as [[ts1 t1] s1] eqn:Hs.
    intros [= <- <- <-].
    rewrite (session_saver_core _ _ _ _ _ Hs). by left.
  - unfold cleanup_iteration.
    destruct (cleanup_running ts), cleanup as [n|e|]; simpl;
      intros [= <- <- <-]; simpl; eauto.
Qed.

(** X17: a failure of the cleanup is recorded in the error ring as
    "Cleanup error: ..." and the task goes on; and the ring holds at most
    20 entries whichever of the four loops runs. *)
Theorem cleanup_fault_boundary cfg days :
  (∀ e time ts,
     cleanup_running ts = true →
     ∃ ts',
       cleanup_iteration days (Raise e) time ts
       = (ts', [HkCleanup days (Raise e)], Failed e)
       ∧ cleanup_running ts' = true
       ∧ saver_running ts' = saver_running ts
       ∧ locals (core ts') = locals (core ts)
       ∧ errors (stability (core ts'))
         = Py.last_n errors_kept
             (errors (stability (core ts))
              ++ [ErrorEntry time ("Cleanup error: " +:+ e)]))
  ∧ (∀ steps ts ts' tr,
       length (errors (stability (core ts))) ≤ errors_kept →
       run_tasks cfg days ts steps = (ts', tr) →
       length (errors (stability (core ts'))) ≤ errors_kept).
Proof.
  split.
  - intros e time ts Hrun. unfold cleanup_iteration. rewrite Hrun. simpl.
    eexists. split_and!; [done|done|done|done|].
    simpl. apply add_error_to_last_n.
  - induction steps as [|st steps IH]; intros ts ts' tr Hlen; simpl.
    + by intros [= <- <-].
    + destruct (do_task_step cfg days st ts) as [[ts1 t1] s] eqn:Hstep.
      destruct (run_tasks cfg days ts1 steps) as [ts2 t2] eqn:Hrun.
      intros [= <- <-]. eapply IH; [|done].
      destruct (do_task_step_errors _ _ _ _ _ _ _ Hstep)
        as [->|(time & e & ->)]; [done|apply add_error_to_length].
Qed.

End HousekeepingFacts.

(** * The webhook routes *)

Module WebhookFacts.

Import Webhook.

(** X19: what [setWebhook] stores is what [getWebhookInfo] reports: the
    URL without surrounding whitespace.  Storing the reported URL again
    changes nothing, and a URL of whitespace only clears the webhook
    exactly as [deleteWebhook] does.  Before [init] every route fails. *)
Theorem webhook_round_trip url p :
  let p1 := (set_webhook url (Some p)).1 in
  (get_webhook_info p1).2 = Ret (Info (Py.strip url))
  ∧ (set_webhook (Py.strip url) p1).1 = p1
  ∧ (get_webhook_info (delete_webhook p1).1).2 = Ret (Info "")
  ∧ (p1 = (delete_webhook (Some p)).1 ↔ all_space url = true)
  ∧ set_webhook url None = (None, Raise "Processor not initialized")
  ∧ delete_webhook None = (None, Raise "Processor not initialized")
  ∧ get_webhook_info None = (None, Raise "Processor not initialized").
Proof.
  simpl. split_and!; try done.
  - by rewrite strip_idempotent.
  - rewrite <-strip_empty. split; [by intros [= ->]|by intros ->].
Qed.

End WebhookFacts.

(** * The stability route *)

Module StatusFacts.

Import Status.

(** X18: [GET /stability] reports the state the background loops share
    with it: in particular [recent_errors] is their error ring, which
    holds at most 20 entries; before [init] the route fails. *)
Theorem stability_route_reports_ring cfg settings w steps w' recs :
  length (errors (stability w)) ≤ errors_kept →
  run cfg w steps = (w', recs) →
  (∃ body,
     stability_status settings (init w') = Ret body
     ∧ body_recent_errors body = errors (stability w')
     ∧ length (body_recent_errors body) ≤ errors_kept
     ∧ body_reconnect_attempts body = reconnect_attempts (stability w')
     ∧ body_total_messages body = total_messages (stability w')
     ∧ body_max_reconnect_attempts body = set_max_reconnect_attempts settings)
  ∧ stability_status settings None = Raise "Stability state not initialized".
Proof.
  intros Hlen Hrun. split; [|done].
  eexists. split_and!; [done|done| |done|done|done].
  simpl. by destruct (run_error_ring _ _ _ _ _ Hlen Hrun).
Qed.

Lemma stability_route_reports_ring_witness :
  ∃ body,
    stability_status (Settings 10 30 5 0)
      (init (run Scenario.cfg Scenario.start
               [Scenario.poll [(Scenario.named "1" "hi", Scenario.failing)]]).1)
    = Ret body
    ∧ body_recent_errors body
      = errors (stability
          (run Scenario.cfg Scenario.start
             [Scenario.poll [(Scenario.named "1" "hi", Scenario.failing)]]).1)
    ∧ length (body_recent_errors body) ≤ errors_kept
    ∧ body_reconnect_attempts body
      = reconnect_attempts (stability
          (run Scenario.cfg Scenario.start
             [Scenario.poll [(Scenario.named "1" "hi", Scenario.failing)]]).1)
    ∧ body_total_messages body
      = total_messages (stability
          (run Scenario.cfg Scenario.start
             [Scenario.poll [(Scenario.named "1" "hi", Scenario.failing)]]).1)
    ∧ body_max_reconnect_attempts body
      = set_max_reconnect_attempts (Settings 10 30 5 0).
Proof.
  destruct (run Scenario.cfg Scenario.start _) as [w recs] eqn:Hrun.
  refine (proj1 (stability_route_reports_ring Scenario.cfg (Settings 10 30 5 0)
                   Scenario.start _ w recs _ Hrun)).
  vm_compute. lia.
Defined.

End StatusFacts.

(** * The download listing *)

Module FilesFacts.

Import Files.

Lemma insert_desc_perm x l : insert_desc x l ≡ₚ x :: l.
Proof.
  induction l as [|y l IH]; simpl; [done|].
  destruct (Qle_bool _ _); [done|]. rewrite IH. apply Permutation_swap.
Qed.

Lemma sort_desc_perm l : sort_desc l ≡ₚ l.
Proof.
  induction l as [|x l IH]; simpl; [done|].
  by rewrite insert_desc_perm, IH.
Qed.

Lemma insert_desc_sorted x l :
  newest_first l → newest_first (insert_desc x l).
Proof.
  induction l as [|y l IH]; simpl; [done|]. intros [Hy Hl].
  destruct (Qle_bool (fe_modified y) (fe_modified x)) eqn:Hle.
  - apply Qle_bool_iff in Hle. simpl. split_and!; [|done|done].
    constructor; [done|].
    eapply Forall_impl; [done|]. unfold newer. intros z Hz.
    by eapply Qle_trans.
  - simpl. split; [|by apply IH].
    rewrite insert_desc_perm. constructor; [|done].
    unfold newer.
    destruct (Qlt_le_dec (fe_modified y) (fe_modified x)) as [Hlt|Hge];
      [|done].
    apply Qlt_le_weak, Qle_bool_iff in Hlt. congruence.
Qed.

Lemma sort_desc_sorted l : newest_first (sort_desc l).
Proof. induction l as [|x l IH]; simpl; [done|]. by apply insert_desc_sorted. Qed.

Lemma newest_first_take n l : newest_first l → newest_first (take n l).
Proof.
  revert n. induction l as [|x l IH]; intros [|n]; simpl; try done.
  intros [Hx Hl]. split; [|by apply IH].
  by apply Forall_take.
Qed.

Lemma walk_entry_visible e f : walk_entry e = Some f → hidden (fe_name f) = false.
Proof.
  unfold walk_entry. destruct (hidden (de_name e)) eqn:Hh; [done|].
  destruct (de_stat e) as [[size mtime]|]; [|done]. by intros [= <-].
Qed.

Lemma scandir_entry_visible e f :
  scandir_entry e = Some f → hidden (fe_name f) = false.
Proof.
  unfold scandir_entry.
  destruct (de_is_file e); simpl; [|done].
  destruct (hidden (de_name e)) eqn:Hh; simpl; [done|].
  destruct (de_stat e) as [[size mtime]|]; [|done]. by intros [= <-].
Qed.

Lemma scan_well_formed fs include_subdirs :
  well_formed (scan fs include_subdirs).
Proof.
  unfold scan. split; [apply sort_desc_sorted|].
  rewrite sort_desc_perm.
  destruct include_subdirs; [|destruct (fs_scandir fs) as [es|]; [|done]];
    apply Forall_forall; intros f Hf;
    apply list_elem_of_omap in Hf as (e & _ & He);
    eauto using walk_entry_visible, scandir_entry_visible.
Qed.

Lemma cached_Some now include_subdirs c files :
  cached now include_subdirs c = Some files →
  ∃ m, downloads_cache c = Some m ∧ m !! include_subdirs = Some files
       ∧ (now - downloads_cache_time c < downloads_cache_ttl)%Q.
Proof.
  unfold cached. destruct (downloads_cache c) as [m|]; [|done].
  destruct (m !! include_subdirs) as [fs|] eqn:Hl; [|done].
  destruct (Qlt_le_dec _ _) as [Hlt|]; [|done]. intros [= <-]. by exists m.
Qed.

Lemma scan_downloads_ok fs now include_subdirs c c' tr files :
  cache_ok c →
  _scan_downloads fs now include_subdirs c = (c', tr, files) →
  cache_ok c' ∧ well_formed files.
Proof.
  intros Hok. unfold _scan_downloads.
  destruct (cached now include_subdirs c) as [cf|] eqn:Hc.
  - intros [= <- <- <-]. split; [done|].
    apply cached_Some in Hc as (m & Hm & Hl & _). by eapply Hok.
  - intros [= <- <- <-]. split; [|apply scan_well_formed].
    intros m inc fl [= <-] Hl.
    destruct (decide (inc = include_subdirs)) as [->|Hne].
    + rewrite lookup_insert_eq in Hl. injection Hl as <-. apply scan_well_formed.
    + rewrite lookup_insert_ne in Hl by done.
      destruct (downloads_cache c) as [m0|] eqn:Hm0; simpl in Hl;
        [by eapply Hok|by rewrite lookup_empty in Hl].
Qed.

(** X20: [GET /downloads] answers with at most [limit] (itself at most
    1000) entries, the newest of the listing, newest first and none of
    them hidden; [total] counts the whole listing; a listing that was
    scanned for this request holds exactly the visible files found. *)
Theorem list_downloads_listing fs now limit include_subdirs c c' tr files total :
  cache_ok c →
  list_downloads fs now limit include_subdirs c = (c', tr, Listing files total) →
  (1 ≤ limit ≤ 1000)%Z
  ∧ length files = Nat.min (Z.to_nat limit) total
  ∧ length files ≤ 1000
  ∧ well_formed files
  ∧ cache_ok c'
  ∧ (tr ≠ [] →
     total = length (scan fs include_subdirs)
     ∧ files = take (Z.to_nat limit) (scan fs include_subdirs)
     ∧ (include_subdirs = true →
        scan fs true ≡ₚ omap walk_entry (fs_walk fs))).
Proof.
  intros Hok. unfold list_downloads.
  case_bool_decide as Hlim; [|done].
  destruct (_scan_downloads fs now include_subdirs c) as [[c1 t1] all] eqn:Hs.
  intros [= <- <- <- <-].
  destruct (scan_downloads_ok _ _ _ _ _ _ _ Hok Hs) as [Hok1 [Hsorted Hvis]].
  split; [exact Hlim|]. split; [by rewrite length_take|].
  split; [rewrite length_take; lia|].
  split; [split; [by apply newest_first_take|by apply Forall_take]|].
  split; [done|].
  intros Htr. unfold _scan_downloads in Hs.
  destruct (cached now include_subdirs c); [by simplify_eq|].
  injection Hs as <- <- <-. split_and!; [done|done|].
  intros ->. unfold scan. apply sort_desc_perm.
Qed.

Lemma list_downloads_listing_witness :
  length [Files.FileEntry "b.txt" "x/b.txt" 4 7] = Nat.min (Z.to_nat 1) 2.
Proof.
  set (fs := FileSystem
               [DirEntry "a.txt" "a.txt" true (Some (3%Z, 5%Q));
                DirEntry ".hidden" ".hidden" true (Some (1%Z, 9%Q));
                DirEntry "b.txt" "x/b.txt" true (Some (4%Z, 7%Q))] None).
  refine (proj1 (proj2 (list_downloads_listing fs 0 1 true initial_cache
                   (Cache (Some {[true := scan fs true]}) 0) [FsWalk]
                   [FileEntry "b.txt" "x/b.txt" 4 7] 2 _ _))).
  - by intros m inc files [=].
  - by vm_compute.
Defined.

(** X21: a listing that was scanned is served again, without touching the
    file system, to every request for the same [include_subdirs] that
    comes less than 10 seconds after the scan, whatever has happened to
    the files meanwhile. *)
Theorem cached_listing_served fs now include_subdirs c c1 tr files :
  _scan_downloads fs now include_subdirs c = (c1, tr, files) →
  tr ≠ [] →
  ∀ fs' now',
    (now' - now < downloads_cache_ttl)%Q →
    _scan_downloads fs' now' include_subdirs c1 = (c1, [], files).
Proof.
  unfold _scan_downloads.
  destruct (cached now include_subdirs c); [by intros [= <- <- <-]|].
  intros [= <- <- <-] _ fs' now' Hfresh.
  unfold cached. simpl. rewrite lookup_insert_eq.
  by destruct (Qlt_le_dec _ _) as [|Hle%Qle_not_lt].
Qed.

Lemma cached_listing_served_witness :
  _scan_downloads
    (FileSystem [] (Some [DirEntry "new.txt" "new.txt" true (Some (1%Z, 104%Q))]))
    105 false (Cache (Some {[false := []]}) 100)
  = (Cache (Some {[false := []]}) 100, [], []).
Proof.
  refine (cached_listing_served (FileSystem [] None) 100 false initial_cache
            _ [FsScandir] [] _ _ _ 105 _).
  - by vm_compute.
  - done.
  - by vm_compute.
Defined.

(** X22: a successful [DELETE /files/{msg_id}] empties the cache: the
    next listing, whenever it is asked for, is scanned from the file
    system.  A request that fails (no such file, or the deletion raised)
    leaves the cache as it was. *)
Theorem listing_after_delete store msg_id env c c' r :
  delete_file store msg_id env c = (c', Ret r) →
  (∀ id, r = DeletedFile id →
     id = msg_id
     ∧ ∀ fs now include_subdirs,
         _scan_downloads fs now include_subdirs c'
         = (Cache (Some {[include_subdirs := scan fs include_subdirs]}) now,
            [if include_subdirs then FsWalk else FsScandir],
            scan fs include_subdirs))
  ∧ (∀ status detail, r = HttpError status detail →
       c' = c ∧ (status = 404 ∨ status = 500)).
Proof.
  unfold delete_file, unlink_file.
  destruct store as [lookup|]; [|done].
  destruct (lookup msg_id) as [path|];
    [|intros [= <- <-]; split; [done|]; intros ?? [= <- <-]; auto].
  destruct (del_exists env) as [[]|e|]; [destruct (del_unlink env) as [[]|e|]|..];
    intros [= <- <-]; (split; [|intros ?? [=]; subst; auto]);
    intros id [=]; subst; try done.
  all: split; [done|]; intros fs now inc; unfold _scan_downloads, cached;
    simpl; by rewrite insert_empty.
Qed.

Lemma listing_after_delete_witness :
  _scan_downloads (FileSystem [] None) 7 true
    (invalidate_downloads_cache
       (Cache (Some {[true := [FileEntry "a.txt" "a.txt" 3 5]]}) 5))
  = (Cache (Some {[true := scan (FileSystem [] None) true]}) 7,
     [FsWalk], scan (FileSystem [] None) true).
Proof.
  refine (proj2 (proj1 (listing_after_delete (Some (λ _, Some "downloads/a.txt"))
                   "42" (DeleteEnv (Ret true) (Ret tt))
                   (Cache (Some {[true := [FileEntry "a.txt" "a.txt" 3 5]]}) 5)
                   _ _ _) "42" eq_refl) (FileSystem [] None) 7%Q true).
  done.
Defined.

End FilesFacts.

(** * The uptime text *)

Module WebUIFacts.

Import WebUI.

(** X23: [_format_uptime] shows seconds below a minute (also a negative
    number, as it is); minutes and seconds below an hour, which add up to
    the input exactly; and from an hour on, hours and minutes, dropping
    less than a minute. *)
Theorem format_uptime_decomposes (seconds : Z) :
  ((seconds < 60)%Z → _format_uptime seconds = pretty seconds +:+ "秒")
  ∧ ((60 ≤ seconds < 3600)%Z →
     ∃ m s : Z,
       _format_uptime seconds = pretty m +:+ "分" +:+ pretty s +:+ "秒"
       ∧ (1 ≤ m < 60)%Z ∧ (0 ≤ s < 60)%Z ∧ seconds = (60 * m + s)%Z)
  ∧ ((3600 ≤ seconds)%Z →
     ∃ h m : Z,
       _format_uptime seconds = pretty h +:+ "小时" +:+ pretty m +:+ "分"
       ∧ (1 ≤ h)%Z ∧ (0 ≤ m < 60)%Z
       ∧ (3600 * h + 60 * m ≤ seconds < 3600 * h + 60 * m + 60)%Z).
Proof.
  unfold _format_uptime. split; [|split].
  - intros H. by rewrite bool_decide_eq_true_2.
  - intros [H1 H2]. rewrite bool_decide_eq_false_2 by lia.
    rewrite bool_decide_eq_true_2 by lia.
    exists (seconds `div` 60)%Z, (seconds `mod` 60)%Z.
    split; [done|]. Z.to_euclidean_division_equations. lia.
  - intros H. rewrite !bool_decide_eq_false_2 by lia.
    exists (seconds `div` 3600)%Z, ((seconds `mod` 3600) `div` 60)%Z.
    split; [done|]. Z.to_euclidean_division_equations. lia.
Qed.

End WebUIFacts.
